(** * Multilingual chatbot backend: translation cache and message pipeline

    A shallow embedding of [backend/app/translation.py], [backend/app/llm_agent.py]
    and [backend/app/main.py], and the properties of the pipeline cache, the chat
    turn and the unary translate endpoint. *)

From Stdlib Require Import Ascii String List Lia.
From stdpp Require Import base option strings gmap list.

Open Scope string_scope.
Open Scope list_scope.

(** ** Python values and exceptions *)

(** The values that reach the code from a decoded JSON frame. The code only
    compares them with string literals, formats them into an f-string and
    hands them to its collaborators, so a value that is neither [None], a
    boolean nor a string (a number, an array, an object) is carried with the
    text [str()] gives for it. *)
Inductive pyval : Type :=
  | PyNone
  | PyBool (b : bool)
  | PyStr (s : string)
  | PyOther (rendering : string).

(** [str(v)], which is also what [f"{v}"] inserts. *)
Definition py_str (v : pyval) : string :=
  match v with
  | PyNone => "None"
  | PyBool true => "True"
  | PyBool false => "False"
  | PyStr s => s
  | PyOther r => r
  end.

(** [v == lit] for a string literal [lit]: only a string can be equal to it. *)
Definition py_eq_str (v : pyval) (lit : string) : bool :=
  match v with
  | PyStr s => String.eqb s lit
  | _ => false
  end.

(** An exception object, with the name of its class and the text of
    [str(e)]: [Exn] is [raise cls(msg)], [ExnFrom] is
    [raise cls(msg) from cause]. *)
Inductive exn : Type :=
  | Exn (cls msg : string)
  | ExnFrom (cls msg : string) (cause : exn).

Definition exn_class (e : exn) : string :=
  match e with Exn c _ | ExnFrom c _ _ => c end.
Definition exn_str (e : exn) : string :=
  match e with Exn _ m | ExnFrom _ m _ => m end.
(** [e.__cause__]. *)
Definition exn_cause (e : exn) : option exn :=
  match e with Exn _ _ => None | ExnFrom _ _ c => Some c end.

(** The classes of the standard library that derive from [BaseException]
    and not from [Exception]; the exceptions of every other class derive from
    [Exception]. *)
Definition base_only_classes : list string :=
  ["BaseException"; "BaseExceptionGroup"; "GeneratorExit"; "KeyboardInterrupt";
   "SystemExit"; "CancelledError"].

(** [isinstance(e, Exception)]: what [except Exception] catches. *)
Definition is_Exception (e : exn) : bool :=
  negb (existsb (String.eqb (exn_class e)) base_only_classes).

Definition ValueError (msg : string) : exn := Exn "ValueError" msg.
Definition RuntimeError (msg : string) : exn := Exn "RuntimeError" msg.
Definition IndexError (msg : string) : exn := Exn "IndexError" msg.
(** [str()] of a [KeyError] is the [repr] of the missing key. *)
Definition KeyError (key_repr : string) : exn := Exn "KeyError" key_repr.

Inductive result (A : Type) : Type :=
  | Ok (a : A)
  | Raise (e : exn).
Arguments Ok {A} a.
Arguments Raise {A} e.

(** ** Process state and collaborators *)

(** A constructed translation pipeline object: [pipe_id] is the identity of
    the Python object, [pipe_model] the model it was built for. *)
Record Pipe : Type := { pipe_id : nat; pipe_model : string }.

(** Calls observed while the code runs. The trace is instrumentation: each
    event is recorded at the place of the call it names. *)
Inductive event : Type :=
  | CallTranslateText (text src tgt : pyval)
  | CallPipeline (model_id : string)
  | CacheStore (key : string) (pipe : Pipe)
  | CallPipe (pipe : Pipe) (text : pyval)
  | CallGenerateReply (user_text : pyval)
  | SendText (reply reply_en : string) (detected_source : pyval).

(** The third-party code and the process environment. Every call into a
    library is answered by the world at the current [clock], so the same call
    may succeed once and fail another time; a constructor answers [None]
    when it returns and [Some e] when it raises [e]. *)
Record World : Type := {
  (** [transformers.pipeline('translation', model=model_id)]: [None] when the
      constructor returns, [Some e] when it raises [e]. *)
  hf_pipeline : nat -> string -> option exn;
  (** [pipe(text)]: the list of candidates, each a dict. *)
  pipe_call : nat -> Pipe -> pyval -> result (list (gmap string string));
  (** [os.environ]. *)
  environ : gmap string string;
  (** [OpenAI(openai_api_key=api_key, temperature=0.2)]. *)
  openai_ctor : nat -> string -> option exn;
  (** [PromptTemplate(input_variables=["system", "user"], template=template)]. *)
  prompt_template_ctor : nat -> string -> option exn;
  (** [LLMChain(llm=llm, prompt=prompt)], for the client of an API key. *)
  llm_chain_ctor : nat -> string -> option exn;
  (** [chain.run({"system": system, "user": user_text})], for the client of
      an API key. *)
  chain_run : nat -> string -> string -> pyval -> result string;
  (** [str.strip]. *)
  str_strip : string -> string
}.

Record State : Type := {
  _translation_pipelines : gmap string Pipe;
  next_id : nat;
  clock : nat;
  trace : list event
}.

(** The state of a freshly started process. *)
Definition initial : State :=
  {| _translation_pipelines := ∅; next_id := 0; clock := 0; trace := [] |}.

(** ** A state and exception monad *)

Definition M (A : Type) : Type := State -> result A * State.

#[export] Instance M_ret : MRet M := fun A (a : A) s => (Ok a, s).

#[export] Instance M_bind : MBind M := fun A B (k : A -> M B) (c : M A) s =>
  match c s with
  | (Ok a, s') => k a s'
  | (Raise e, s') => (Raise e, s')
  end.

Definition raise {A : Type} (e : exn) : M A := fun s => (Raise e, s).

Definition emit (ev : event) : M unit := fun s =>
  (Ok tt, {| _translation_pipelines := _translation_pipelines s;
             next_id := next_id s; clock := clock s;
             trace := trace s ++ [ev] |}).

(** Reads the clock and advances it: one call into a library. *)
Definition tick : M nat := fun s =>
  (Ok (clock s), {| _translation_pipelines := _translation_pipelines s;
                    next_id := next_id s; clock := S (clock s);
                    trace := trace s |}).

Definition fresh_id : M nat := fun s =>
  (Ok (next_id s), {| _translation_pipelines := _translation_pipelines s;
                      next_id := S (next_id s); clock := clock s;
                      trace := trace s |}).

Definition read_cache : M (gmap string Pipe) := fun s =>
  (Ok (_translation_pipelines s), s).

(** [_translation_pipelines[key] = pipe]. *)
Definition cache_store (key : string) (pipe : Pipe) : M unit := fun s =>
  (Ok tt, {| _translation_pipelines := <[key := pipe]> (_translation_pipelines s);
             next_id := next_id s; clock := clock s;
             trace := trace s ++ [CacheStore key pipe] |}).

Definition lift_result {A : Type} (r : result A) : M A := fun s => (r, s).

(** The outcome of a constructor call whose object the model does not carry. *)
Definition lift_ctor (r : option exn) : M unit :=
  match r with
  | Some e => raise e
  | None => mret tt
  end.

(** ** translation.py *)

Definition LANGUAGE_MODELS : gmap string string :=
  <["en->hi" := "Helsinki-NLP/opus-mt-en-hi"]>
  (<["hi->en" := "Helsinki-NLP/opus-mt-hi-en"]>
  (<["en->ja" := "Helsinki-NLP/opus-mt-en-jap"]>
  (<["ja->en" := "Helsinki-NLP/opus-mt-ja-en"]> ∅))).

Section Program.

Variable w : World.

(** [pipeline('translation', model=model_id)]: a new object on success. *)
Definition pipeline (model_id : string) : M Pipe :=
  emit (CallPipeline model_id);;
  t ← tick;
  match hf_pipeline w t model_id with
  | Some e => raise e
  | None => i ← fresh_id; mret {| pipe_id := i; pipe_model := model_id |}
  end.

Definition _get_pipeline (key : string) : M Pipe :=
  cache ← read_cache;
  match cache !! key with
  | Some pipe => mret pipe
  | None =>
      (* [not model_id]: [None] and the empty string are falsy *)
      match LANGUAGE_MODELS !! key with
      | None => raise (ValueError ("No translation model configured for " +:+ key))
      | Some model_id =>
          if String.eqb model_id ""
          then raise (ValueError ("No translation model configured for " +:+ key))
          else
            pipe ← pipeline model_id;
            cache_store key pipe;;
            mret pipe
      end
  end.

(** [pipe(text)]. *)
Definition call_pipe (pipe : Pipe) (text : pyval) : M (list (gmap string string)) :=
  emit (CallPipe pipe text);;
  t ← tick;
  lift_result (pipe_call w t pipe text).

Definition translate_text (text src tgt : pyval) : M string :=
  emit (CallTranslateText text src tgt);;
  let key := py_str src +:+ "->" +:+ py_str tgt in
  pipe ← _get_pipeline key;
  out ← call_pipe pipe text;
  match out with
  | [] => raise (IndexError "list index out of range")
  | first :: _ =>
      match first !! "translation_text" with
      | Some translated => mret translated
      | None => raise (KeyError "'translation_text'")
      end
  end.

(** ** llm_agent.py *)

Definition OPENAI_API_KEY_ENV : string := "OPENAI_API_KEY".

Definition SYSTEM_PROMPT : string := "You are a helpful multilingual assistant.".

(** The template, with its line breaks as [\n] would give them. *)
Definition PROMPT_TEMPLATE : string :=
  String "010" ("{system}" +:+ String "010" ("User: {user}" +:+
  String "010" ("Assistant:" +:+ String "010" ""))).

(** [get_llm(api_key)]: [api_key or os.environ.get(...)], the check, then
    the client; the client is known by its key. *)
Definition get_llm (api_key : option string) : M string :=
  let api_key :=
    match api_key with
    | Some k => if String.eqb k "" then environ w !! OPENAI_API_KEY_ENV else Some k
    | None => environ w !! OPENAI_API_KEY_ENV
    end in
  match api_key with
  | None => raise (RuntimeError "OpenAI API key is not set.")
  | Some k =>
      if String.eqb k "" then raise (RuntimeError "OpenAI API key is not set.")
      else
        t ← tick;
        lift_ctor (openai_ctor w t k);;
        mret k
  end.

Definition generate_reply (user_text : pyval) (system : string)
    (api_key : option string) : M string :=
  emit (CallGenerateReply user_text);;
  llm ← get_llm api_key;
  t ← tick;
  lift_ctor (prompt_template_ctor w t PROMPT_TEMPLATE);;
  t ← tick;
  lift_ctor (llm_chain_ctor w t llm);;
  t ← tick;
  resp ← lift_result (chain_run w t llm system user_text);
  mret (str_strip w resp).

(** ** main.py *)

(** The body of a request to the unary endpoint, as the framework hands it
    over after validation: both fields are strings. *)
Record ChatMessage : Type := { text : string; source_language : string }.

(** [payload.get(field)] and [payload.get(field, default)]. *)
Definition dict_get (payload : gmap string pyval) (field : string)
    (dflt : pyval) : pyval :=
  match payload !! field with
  | Some v => v
  | None => dflt
  end.

(** Lines 28-31 of [websocket_chat]: [user_en]. *)
Definition user_en_of (text src : pyval) : M pyval :=
  if negb (py_eq_str src "en")
  then t ← translate_text text src (PyStr "en"); mret (PyStr t)
  else mret text.

(** Line 34: [out_lang = src if tgt == 'source' else tgt]. *)
Definition out_lang_of (src tgt : pyval) : pyval :=
  if py_eq_str tgt "source" then src else tgt.

(** Lines 35-38: [bot_out]. *)
Definition bot_out_of (bot_en : string) (out_lang : pyval) : M string :=
  if negb (py_eq_str out_lang "en")
  then translate_text (PyStr bot_en) (PyStr "en") out_lang
  else mret bot_en.

Record resp_obj : Type := {
  reply : string;
  reply_en : string;
  detected_source : pyval
}.

(** One pass of the loop body of [websocket_chat] for a decoded frame
    (lines 24-40): from [payload] to [resp_obj]. *)
Definition chat_turn (payload : gmap string pyval) : M resp_obj :=
  let text := dict_get payload "text" PyNone in
  let src := dict_get payload "source_language" (PyStr "en") in
  let tgt := dict_get payload "bot_language" (PyStr "en") in
  user_en ← user_en_of text src;
  bot_en ← generate_reply user_en SYSTEM_PROMPT None;
  let out_lang := out_lang_of src tgt in
  bot_out ← bot_out_of bot_en out_lang;
  mret {| reply := bot_out; reply_en := bot_en; detected_source := src |}.

(** The loop of [websocket_chat] over the frames the client sends, each a
    JSON object already decoded; after the last one [receive_text] raises
    [WebSocketDisconnect], which ends the handler. *)
Fixpoint websocket_chat (frames : list (gmap string pyval)) : M unit :=
  match frames with
  | [] => mret tt
  | payload :: rest =>
      r ← chat_turn payload;
      emit (SendText (reply r) (reply_en r) (detected_source r));;
      websocket_chat rest
  end.

(** What the framework gets back from [translate_api]: the returned dict
    [{'translated': out}], the raised [HTTPException], or an exception that
    the handler did not catch. *)
Inductive http_result : Type :=
  | Translated (translated : string)
  | HTTPException (status_code : nat) (detail : string)
  | Uncaught (e : exn).

(** [target] is the query parameter, a string; the framework passes ['en']
    when the query has none. *)
Definition translate_api (msg : ChatMessage) (target : string)
    : State -> http_result * State := fun s =>
  match translate_text (PyStr (text msg)) (PyStr (source_language msg)) (PyStr target) s with
  | (Ok out, s') => (Translated out, s')
  | (Raise e, s') =>
      (* [except Exception as e] *)
      if is_Exception e then (HTTPException 500 (exn_str e), s')
      else (Uncaught e, s')
  end.

End Program.

(** ** Sample worlds *)

(** Every library call succeeds: a pipeline answers with one candidate that
    tags the text with its model, the completion echoes the user text. *)
Definition demo_world : World :=
  {| hf_pipeline := fun _ _ => None;
     pipe_call := fun _ pipe text =>
       Ok [ {[ "translation_text" := pipe_model pipe +:+ ": " +:+ py_str text ]} ];
     environ := {[ "OPENAI_API_KEY" := "sk-demo" ]};
     openai_ctor := fun _ _ => None;
     prompt_template_ctor := fun _ _ => None;
     llm_chain_ctor := fun _ _ => None;
     chain_run := fun _ _ _ user => Ok ("Echo " +:+ py_str user);
     str_strip := fun s => s |}.

(** As [demo_world], but every model invocation fails. *)
Definition failing_model_world : World :=
  {| hf_pipeline := fun _ _ => None;
     pipe_call := fun _ _ _ => Raise (RuntimeError "CUDA out of memory");
     environ := {[ "OPENAI_API_KEY" := "sk-demo" ]};
     openai_ctor := fun _ _ => None;
     prompt_template_ctor := fun _ _ => None;
     llm_chain_ctor := fun _ _ => None;
     chain_run := fun _ _ _ user => Ok ("Echo " +:+ py_str user);
     str_strip := fun s => s |}.

(** ** Requests and reachable states *)

(** What the process does over its lifetime: it resolves pairs, translates,
    serves chat connections and answers the unary endpoint, one call after
    the other; an exception ends the call, not the process. *)
Inductive request : Type :=
  | ReqResolve (key : string)
  | ReqTranslateText (text src tgt : pyval)
  | ReqChat (frames : list (gmap string pyval))
  | ReqTranslateApi (msg : ChatMessage) (target : string).

Definition serve (w : World) (r : request) (s : State) : State :=
  match r with
  | ReqResolve key => snd (_get_pipeline w key s)
  | ReqTranslateText text src tgt => snd (translate_text w text src tgt s)
  | ReqChat frames => snd (websocket_chat w frames s)
  | ReqTranslateApi msg target => snd (translate_api w msg target s)
  end.

Inductive reachable (w : World) : State -> Prop :=
  | reachable_initial : reachable w initial
  | reachable_serve r s : reachable w s -> reachable w (serve w r s).

(** A sequence of requests, from the first to the last. *)
Definition serve_all (w : World) (reqs : list request) (s : State) : State :=
  fold_left (fun s r => serve w r s) reqs s.

(** A sequence of resolve calls, from the first to the last. *)
Definition resolve_all (w : World) (keys : list string) (s : State) : State :=
  fold_left (fun s key => serve w (ReqResolve key) s) keys s.

(** The pipes written into the cache under [key], in the order of the writes. *)
Fixpoint stores (key : string) (tr : list event) : list Pipe :=
  match tr with
  | [] => []
  | CacheStore k pipe :: tr' =>
      if String.eqb k key then pipe :: stores key tr' else stores key tr'
  | _ :: tr' => stores key tr'
  end.

Definition is_store (ev : event) : bool :=
  match ev with CacheStore _ _ => true | _ => false end.

Definition is_completion (ev : event) : bool :=
  match ev with CallGenerateReply _ => true | _ => false end.

Definition is_ok {A : Type} (r : result A) : bool :=
  match r with Ok _ => true | Raise _ => false end.

(** Whether one of the calls of [resolve_all w keys s] that asked for [key]
    returned a pipe. *)
Fixpoint returned (w : World) (keys : list string) (s : State) (key : string) : bool :=
  match keys with
  | [] => false
  | k :: rest =>
      let (r, s') := _get_pipeline w k s in
      (String.eqb k key && is_ok r) || returned w rest s' key
  end.

(** ** Relations between the state before and after a call *)

(** [R] holds from the state before [c] to the state after it, whether [c]
    returns or raises. *)
Definition respects {A : Type} (R : State -> State -> Prop) (c : M A) : Prop :=
  forall s, R s (snd (c s)).

(** The trace has only grown, by events that satisfy [P]. *)
Definition extends (P : event -> Prop) (s s' : State) : Prop :=
  exists evs, trace s' = trace s ++ evs /\ Forall P evs.

(** The cache against the configured table and against its own history:
    every cached pipe was built for the model configured for its key, and
    the pipes ever written under a key are exactly the one cached there. *)
Record cache_inv (s : State) : Prop := {
  inv_configured : forall k p,
    _translation_pipelines s !! k = Some p ->
    LANGUAGE_MODELS !! k = Some (pipe_model p);
  inv_stores : forall k,
    stores k (trace s) =
    match _translation_pipelines s !! k with Some p => [p] | None => [] end
}.

Definition keeps_inv (s s' : State) : Prop := cache_inv s -> cache_inv s'.

(** What is cached stays cached, the same pipe under the same key. *)
Definition cache_grows (s s' : State) : Prop :=
  forall k p,
    _translation_pipelines s !! k = Some p -> _translation_pipelines s' !! k = Some p.

(** The cache has the same content. *)
Definition same_cache (s s' : State) : Prop :=
  _translation_pipelines s' = _translation_pipelines s.

(** ** Counting calls and pipes *)

Definition is_translate (ev : event) : bool :=
  match ev with CallTranslateText _ _ _ => true | _ => false end.

Definition is_send (ev : event) : bool :=
  match ev with SendText _ _ _ => true | _ => false end.

(** The events below a [translate_text] call: building, storing and calling
    a pipe. *)
Definition is_pipe_work (ev : event) : bool :=
  match ev with
  | CallPipeline _ | CacheStore _ _ | CallPipe _ _ => true
  | _ => false
  end.

Definition count (f : event -> bool) (tr : list event) : nat :=
  length (List.filter f tr).

(** The pipe objects against the counter that names them: every pipe that
    was built is cached, under one key only. *)
Record ids_inv (s : State) : Prop := {
  ids_count : next_id s = size (_translation_pipelines s);
  ids_bound : forall k p,
    _translation_pipelines s !! k = Some p -> pipe_id p < next_id s;
  ids_distinct : forall k1 k2 p1 p2,
    _translation_pipelines s !! k1 = Some p1 ->
    _translation_pipelines s !! k2 = Some p2 ->
    pipe_id p1 = pipe_id p2 -> k1 = k2
}.

Definition keeps_ids (s s' : State) : Prop := ids_inv s -> ids_inv s'.

(** What one translation step of a turn may add: at most one
    [translate_text] call, no completion, nothing sent, and at most two
    library calls (the construction of the pipe and its call). *)
Definition translation_step (s s' : State) : Prop :=
  exists evs,
    trace s' = trace s ++ evs
    /\ count is_translate evs <= 1
    /\ count is_completion evs = 0
    /\ count is_send evs = 0
    /\ clock s <= clock s' <= clock s + 2.

(** Whether the character occurs in the string. *)
Fixpoint has_char (c : Ascii.ascii) (s : string) : bool :=
  match s with
  | EmptyString => false
  | String c' s' => Ascii.eqb c c' || has_char c s'
  end.

(** The state [translate_text] hands to [_get_pipeline]: the entry is on the
    trace. *)
Definition entered (text src tgt : pyval) (s : State) : State :=
  snd (emit (CallTranslateText text src tgt) s).

(** As [demo_world], but [OPENAI_API_KEY] is not set. *)
Definition no_key_world : World :=
  {| hf_pipeline := fun _ _ => None;
     pipe_call := fun _ pipe text =>
       Ok [ {[ "translation_text" := pipe_model pipe +:+ ": " +:+ py_str text ]} ];
     environ := ∅;
     openai_ctor := fun _ _ => None;
     prompt_template_ctor := fun _ _ => None;
     llm_chain_ctor := fun _ _ => None;
     chain_run := fun _ _ _ user => Ok ("Echo " +:+ py_str user);
     str_strip := fun s => s |}.

(** As [demo_world], but the first library call of the process, when it is
    the construction of a pipe, fails. *)
Definition flaky_world : World :=
  {| hf_pipeline := fun t _ =>
       match t with
       | 0 => Some (Exn "OSError" "model download failed")
       | _ => None
       end;
     pipe_call := fun _ pipe text =>
       Ok [ {[ "translation_text" := pipe_model pipe +:+ ": " +:+ py_str text ]} ];
     environ := {[ "OPENAI_API_KEY" := "sk-demo" ]};
     openai_ctor := fun _ _ => None;
     prompt_template_ctor := fun _ _ => None;
     llm_chain_ctor := fun _ _ => None;
     chain_run := fun _ _ _ user => Ok ("Echo " +:+ py_str user);
     str_strip := fun s => s |}.



(** As [demo_world], but the models answer with no candidate. *)
Definition empty_answer_world : World :=
  {| hf_pipeline := fun _ _ => None;
     pipe_call := fun _ _ _ => Ok [];
     environ := {[ "OPENAI_API_KEY" := "sk-demo" ]};
     openai_ctor := fun _ _ => None;
     prompt_template_ctor := fun _ _ => None;
     llm_chain_ctor := fun _ _ => None;
     chain_run := fun _ _ _ user => Ok ("Echo " +:+ py_str user);
     str_strip := fun s => s |}.

(** ** Laws of the monad *)

Lemma bind_ok {A B : Type} (c : M A) (k : A -> M B) s a s' :
  c s = (Ok a, s') -> (c ≫= k) s = k a s'.
Proof. intros H. unfold mbind, M_bind. now rewrite H. Qed.

Section Steps.

Variable R : State -> State -> Prop.
Hypothesis R_refl : forall s, R s s.
Hypothesis R_trans : forall s1 s2 s3, R s1 s2 -> R s2 s3 -> R s1 s3.

Lemma respects_ret {A : Type} (a : A) : respects R (mret a : M A).
Proof. intros s. apply R_refl. Qed.

Lemma respects_raise {A : Type} (e : exn) : respects R (raise e : M A).
Proof. intros s. apply R_refl. Qed.

Lemma respects_lift_result {A : Type} (r : result A) : respects R (lift_result r).
Proof. intros s. apply R_refl. Qed.

Lemma respects_read_cache : respects R read_cache.
Proof. intros s. apply R_refl. Qed.

Lemma respects_bind {A B : Type} (c : M A) (k : A -> M B) :
  respects R c -> (forall a, respects R (k a)) -> respects R (c ≫= k).
Proof.
  intros Hc Hk s. unfold mbind, M_bind.
  specialize (Hc s). destruct (c s) as [[a | e] s1]; simpl in *.
  - eapply R_trans; [exact Hc | apply Hk].
  - exact Hc.
Qed.

Lemma respects_if {A : Type} (b : bool) (c1 c2 : M A) :
  respects R c1 -> respects R c2 -> respects R (if b then c1 else c2).
Proof. now destruct b. Qed.

End Steps.

(** ** The trace only grows *)

Lemma extends_refl P s : extends P s s.
Proof. exists []. split; [now rewrite app_nil_r | constructor]. Qed.

Lemma extends_trans P s1 s2 s3 :
  extends P s1 s2 -> extends P s2 s3 -> extends P s1 s3.
Proof.
  intros (e1 & H1 & F1) (e2 & H2 & F2). exists (e1 ++ e2). split.
  - now rewrite H2, H1, app_assoc.
  - apply Forall_app; auto.
Qed.

Lemma extends_emit (P : event -> Prop) ev : P ev -> respects (extends P) (emit ev).
Proof. intros H s. exists [ev]. split; [reflexivity | now repeat constructor]. Qed.

Lemma extends_same_trace P s s' : trace s' = trace s -> extends P s s'.
Proof. intros H. exists []. split; [now rewrite app_nil_r | constructor]. Qed.

Lemma extends_tick P : respects (extends P) tick.
Proof. intros s. now apply extends_same_trace. Qed.

Lemma extends_fresh_id P : respects (extends P) fresh_id.
Proof. intros s. now apply extends_same_trace. Qed.

Lemma extends_cache_store (P : event -> Prop) key pipe :
  P (CacheStore key pipe) -> respects (extends P) (cache_store key pipe).
Proof. intros H s. exists [CacheStore key pipe]. split; [reflexivity | now repeat constructor]. Qed.

Section TraceGrowth.

Variable w : World.
Variable P : event -> Prop.

Lemma extends_bind {A B : Type} (c : M A) (k : A -> M B) :
  respects (extends P) c -> (forall a, respects (extends P) (k a)) ->
  respects (extends P) (c ≫= k).
Proof. apply respects_bind, extends_trans. Qed.

Lemma extends_ret {A : Type} (a : A) : respects (extends P) (mret a : M A).
Proof. apply respects_ret, extends_refl. Qed.

Lemma extends_raise {A : Type} (e : exn) : respects (extends P) (raise e : M A).
Proof. apply respects_raise, extends_refl. Qed.

Lemma extends_pipeline model_id :
  P (CallPipeline model_id) -> respects (extends P) (pipeline w model_id).
Proof.
  intros H. unfold pipeline.
  apply extends_bind; [now apply extends_emit | intros ?].
  apply extends_bind; [apply extends_tick | intros t].
  destruct (hf_pipeline w t model_id).
  - apply extends_raise.
  - apply extends_bind; [apply extends_fresh_id | intros i]. apply extends_ret.
Qed.

Lemma extends_get_pipeline key :
  (forall m, P (CallPipeline m)) -> (forall p, P (CacheStore key p)) ->
  respects (extends P) (_get_pipeline w key).
Proof.
  intros H1 H2. unfold _get_pipeline.
  apply extends_bind; [apply respects_read_cache, extends_refl | intros cache].
  destruct (cache !! key); [apply extends_ret |].
  destruct (LANGUAGE_MODELS !! key) as [m |]; [| apply extends_raise].
  apply respects_if; [apply extends_raise |].
  apply extends_bind; [now apply extends_pipeline | intros pipe].
  apply extends_bind; [now apply extends_cache_store | intros ?].
  apply extends_ret.
Qed.

Lemma extends_call_pipe pipe text :
  P (CallPipe pipe text) -> respects (extends P) (call_pipe w pipe text).
Proof.
  intros H. unfold call_pipe.
  apply extends_bind; [now apply extends_emit | intros ?].
  apply extends_bind; [apply extends_tick | intros t].
  apply respects_lift_result, extends_refl.
Qed.

Lemma extends_translate_text text src tgt :
  (forall ev, is_completion ev = false -> P ev) ->
  respects (extends P) (translate_text w text src tgt).
Proof.
  intros H. unfold translate_text.
  apply extends_bind; [now apply extends_emit, H | intros ?].
  apply extends_bind; [apply extends_get_pipeline; intros; now apply H | intros pipe].
  apply extends_bind; [now apply extends_call_pipe, H | intros out].
  destruct out as [| first ?]; [apply extends_raise |].
  destruct (first !! "translation_text"); [apply extends_ret | apply extends_raise].
Qed.

End TraceGrowth.

(** ** The pipeline cache *)

Lemma LANGUAGE_MODELS_nonempty key model_id :
  LANGUAGE_MODELS !! key = Some model_id -> String.eqb model_id "" = false.
Proof.
  unfold LANGUAGE_MODELS. intros H.
  repeat (rewrite lookup_insert in H; case_decide;
          [injection H as <-; reflexivity |]).
  now rewrite lookup_empty in H.
Qed.

Section Cache.

Variable w : World.

(** The four ways through [_get_pipeline]. *)
Lemma get_pipeline_cached key pipe s :
  _translation_pipelines s !! key = Some pipe ->
  _get_pipeline w key s = (Ok pipe, s).
Proof.
  intros H. unfold _get_pipeline, mbind, M_bind, read_cache. now rewrite H.
Qed.

Lemma get_pipeline_unconfigured key s :
  _translation_pipelines s !! key = None ->
  LANGUAGE_MODELS !! key = None ->
  _get_pipeline w key s =
  (Raise (ValueError ("No translation model configured for " +:+ key)), s).
Proof.
  intros H1 H2. unfold _get_pipeline, mbind, M_bind, read_cache.
  now rewrite H1, H2.
Qed.

Lemma get_pipeline_built key model_id s :
  _translation_pipelines s !! key = None ->
  LANGUAGE_MODELS !! key = Some model_id ->
  hf_pipeline w (clock s) model_id = None ->
  let pipe := {| pipe_id := next_id s; pipe_model := model_id |} in
  _get_pipeline w key s =
  (Ok pipe,
   {| _translation_pipelines := <[key := pipe]> (_translation_pipelines s);
      next_id := S (next_id s);
      clock := S (clock s);
      trace := (trace s ++ [CallPipeline model_id]) ++ [CacheStore key pipe] |}).
Proof.
  intros H1 H2 H3. unfold _get_pipeline, mbind, M_bind, read_cache.
  rewrite H1, H2, (LANGUAGE_MODELS_nonempty _ _ H2).
  unfold pipeline, mbind, M_bind. simpl. now rewrite H3.
Qed.

Lemma get_pipeline_not_built key model_id e s :
  _translation_pipelines s !! key = None ->
  LANGUAGE_MODELS !! key = Some model_id ->
  hf_pipeline w (clock s) model_id = Some e ->
  _get_pipeline w key s =
  (Raise e,
   {| _translation_pipelines := _translation_pipelines s;
      next_id := next_id s;
      clock := S (clock s);
      trace := trace s ++ [CallPipeline model_id] |}).
Proof.
  intros H1 H2 H3. unfold _get_pipeline, mbind, M_bind, read_cache.
  rewrite H1, H2, (LANGUAGE_MODELS_nonempty _ _ H2).
  unfold pipeline, mbind, M_bind. simpl. now rewrite H3.
Qed.

(** A call that returns leaves the returned pipe cached under the key. *)
Lemma get_pipeline_returns key pipe s s' :
  _get_pipeline w key s = (Ok pipe, s') ->
  _translation_pipelines s' !! key = Some pipe.
Proof.
  intros H.
  destruct (_translation_pipelines s !! key) as [p |] eqn:Hc.
  { rewrite (get_pipeline_cached _ _ _ Hc) in H. now inversion H; subst. }
  destruct (LANGUAGE_MODELS !! key) as [m |] eqn:Hm.
  2: { now rewrite (get_pipeline_unconfigured _ _ Hc Hm) in H. }
  destruct (hf_pipeline w (clock s) m) as [e |] eqn:Hb.
  { now rewrite (get_pipeline_not_built _ _ _ _ Hc Hm Hb) in H. }
  rewrite (get_pipeline_built _ _ _ Hc Hm Hb) in H.
  inversion H; subst; simpl. apply lookup_insert_eq.
Qed.

End Cache.

(** ** Relations kept by every call *)

(** The functions of the program are built from [emit] of events other than
    cache writes, [tick] and [_get_pipeline]: a relation that holds across
    these holds across every request. *)
Section Composite.

Variable w : World.
Variable R : State -> State -> Prop.
Hypothesis R_refl : forall s, R s s.
Hypothesis R_trans : forall s1 s2 s3, R s1 s2 -> R s2 s3 -> R s1 s3.
Hypothesis R_emit : forall ev, is_store ev = false -> respects R (emit ev).
Hypothesis R_tick : respects R tick.
Hypothesis R_get_pipeline : forall key, respects R (_get_pipeline w key).

Local Ltac step lem := apply (respects_bind R R_trans); [lem | intros ?].
Local Ltac stop := first [apply (respects_ret R R_refl) | apply (respects_raise R R_refl)].

Lemma respects_call_pipe pipe text : respects R (call_pipe w pipe text).
Proof.
  unfold call_pipe.
  step ltac:(now apply R_emit). step ltac:(apply R_tick).
  apply respects_lift_result, R_refl.
Qed.

Lemma respects_translate_text text src tgt :
  respects R (translate_text w text src tgt).
Proof.
  unfold translate_text.
  step ltac:(now apply R_emit). step ltac:(apply R_get_pipeline).
  apply (respects_bind R R_trans); [apply respects_call_pipe | intros out].
  destruct out as [| first ?]; [stop |].
  destruct (first !! "translation_text"); stop.
Qed.

Lemma respects_lift_ctor r : respects R (lift_ctor r).
Proof. destruct r; stop. Qed.

Lemma respects_get_llm api_key : respects R (get_llm w api_key).
Proof.
  unfold get_llm.
  repeat match goal with
         | |- context [match ?x with _ => _ end] => destruct x
         end;
    first [ stop
          | step ltac:(apply R_tick); step ltac:(apply respects_lift_ctor); stop ].
Qed.

Lemma respects_generate_reply user_text system api_key :
  respects R (generate_reply w user_text system api_key).
Proof.
  unfold generate_reply.
  step ltac:(now apply R_emit). step ltac:(apply respects_get_llm).
  step ltac:(apply R_tick). step ltac:(apply respects_lift_ctor).
  step ltac:(apply R_tick). step ltac:(apply respects_lift_ctor).
  step ltac:(apply R_tick). step ltac:(apply respects_lift_result, R_refl).
  stop.
Qed.

Lemma respects_chat_turn payload : respects R (chat_turn w payload).
Proof.
  unfold chat_turn.
  step ltac:(unfold user_en_of; apply respects_if; [| stop];
             step ltac:(apply respects_translate_text); stop).
  step ltac:(apply respects_generate_reply).
  step ltac:(unfold bot_out_of; apply respects_if;
             [apply respects_translate_text | stop]).
  stop.
Qed.

Lemma respects_websocket_chat frames : respects R (websocket_chat w frames).
Proof.
  induction frames as [| payload rest IH]; simpl; [stop |].
  step ltac:(apply respects_chat_turn). step ltac:(now apply R_emit). exact IH.
Qed.

Lemma respects_translate_api msg target s :
  R s (snd (translate_api w msg target s)).
Proof.
  unfold translate_api.
  pose proof (respects_translate_text
                (PyStr (text msg)) (PyStr (source_language msg)) (PyStr target) s) as H.
  destruct (translate_text w (PyStr (text msg)) (PyStr (source_language msg))
              (PyStr target) s) as [[out | e] s']; [exact H |].
  now destruct (is_Exception e).
Qed.

Lemma respects_serve r s : R s (serve w r s).
Proof.
  destruct r; simpl.
  - apply R_get_pipeline.
  - apply respects_translate_text.
  - apply respects_websocket_chat.
  - apply respects_translate_api.
Qed.

Lemma respects_serve_all reqs s : R s (serve_all w reqs s).
Proof.
  revert s. induction reqs as [| r rest IH]; intros s; simpl; [apply R_refl |].
  eapply R_trans; [apply respects_serve | apply IH].
Qed.

End Composite.

(** ** The cache invariant *)

Lemma stores_app key tr tr' :
  stores key (tr ++ tr') = stores key tr ++ stores key tr'.
Proof.
  induction tr as [| ev tr IH]; simpl; [reflexivity |].
  destruct ev; auto. destruct (String.eqb key0 key); simpl; now rewrite IH.
Qed.

Lemma stores_snoc_other key tr ev :
  is_store ev = false -> stores key (tr ++ [ev]) = stores key tr.
Proof.
  intros H. rewrite stores_app. destruct ev; simpl; try apply app_nil_r.
  discriminate.
Qed.

Lemma cache_inv_initial : cache_inv initial.
Proof. split; intros k; simpl; [intros p H |]; now rewrite lookup_empty in *. Qed.

Lemma cache_inv_same s s' :
  _translation_pipelines s' = _translation_pipelines s ->
  (forall k, stores k (trace s') = stores k (trace s)) ->
  keeps_inv s s'.
Proof.
  intros Hc Ht [H1 H2]. split.
  - intros k p. rewrite Hc. apply H1.
  - intros k. rewrite Hc, Ht. apply H2.
Qed.

Lemma keeps_inv_refl s : keeps_inv s s.
Proof. now intros H. Qed.

Lemma keeps_inv_trans s1 s2 s3 : keeps_inv s1 s2 -> keeps_inv s2 s3 -> keeps_inv s1 s3.
Proof. unfold keeps_inv. auto. Qed.

Lemma keeps_inv_emit ev : is_store ev = false -> respects keeps_inv (emit ev).
Proof.
  intros H s. apply cache_inv_same; simpl; [reflexivity |].
  intros k. now apply stores_snoc_other.
Qed.

Lemma keeps_inv_tick : respects keeps_inv tick.
Proof. intros s. now apply cache_inv_same. Qed.

Lemma keeps_inv_get_pipeline w key : respects keeps_inv (_get_pipeline w key).
Proof.
  intros s.
  destruct (_translation_pipelines s !! key) as [p |] eqn:Hc.
  { rewrite (get_pipeline_cached _ _ _ _ Hc). apply keeps_inv_refl. }
  destruct (LANGUAGE_MODELS !! key) as [m |] eqn:Hm.
  2: { rewrite (get_pipeline_unconfigured _ _ _ Hc Hm). apply keeps_inv_refl. }
  destruct (hf_pipeline w (clock s) m) as [e |] eqn:Hb.
  { rewrite (get_pipeline_not_built _ _ _ _ _ Hc Hm Hb).
    apply cache_inv_same; simpl; [reflexivity |].
    intros k. now apply stores_snoc_other. }
  rewrite (get_pipeline_built _ _ _ _ Hc Hm Hb). simpl.
  intros [H1 H2]. split; simpl.
  - intros k p. rewrite lookup_insert. case_decide as Hk.
    + subst k. intros [= <-]. exact Hm.
    + apply H1.
  - intros k. rewrite !stores_app, H2. simpl.
    rewrite lookup_insert. case_decide as Hk.
    + subst k. now rewrite Hc, String.eqb_refl.
    + apply String.eqb_neq in Hk. rewrite Hk. simpl. now rewrite !app_nil_r.
Qed.

Lemma reachable_cache_inv w s : reachable w s -> cache_inv s.
Proof.
  induction 1 as [| r s _ IH]; [apply cache_inv_initial |].
  revert IH.
  apply (respects_serve w keeps_inv keeps_inv_refl keeps_inv_trans
           keeps_inv_emit keeps_inv_tick (keeps_inv_get_pipeline w)).
Qed.

(** ** The cache never forgets *)

Lemma cache_grows_refl s : cache_grows s s.
Proof. now intros k p H. Qed.

Lemma cache_grows_trans s1 s2 s3 :
  cache_grows s1 s2 -> cache_grows s2 s3 -> cache_grows s1 s3.
Proof. unfold cache_grows. auto. Qed.

Lemma cache_grows_emit ev : is_store ev = false -> respects cache_grows (emit ev).
Proof. now intros _ s k p H. Qed.

Lemma cache_grows_tick : respects cache_grows tick.
Proof. now intros s k p H. Qed.

Lemma cache_grows_get_pipeline w key : respects cache_grows (_get_pipeline w key).
Proof.
  intros s.
  destruct (_translation_pipelines s !! key) as [p |] eqn:Hc.
  { rewrite (get_pipeline_cached _ _ _ _ Hc). apply cache_grows_refl. }
  destruct (LANGUAGE_MODELS !! key) as [m |] eqn:Hm.
  2: { rewrite (get_pipeline_unconfigured _ _ _ Hc Hm). apply cache_grows_refl. }
  destruct (hf_pipeline w (clock s) m) as [e |] eqn:Hb.
  { rewrite (get_pipeline_not_built _ _ _ _ _ Hc Hm Hb). now intros k p H. }
  rewrite (get_pipeline_built _ _ _ _ Hc Hm Hb). intros k p H. simpl.
  rewrite lookup_insert_ne; [exact H | congruence].
Qed.

Lemma cache_grows_serve_all w reqs s : cache_grows s (serve_all w reqs s).
Proof.
  apply (respects_serve_all w cache_grows cache_grows_refl cache_grows_trans
           cache_grows_emit cache_grows_tick (cache_grows_get_pipeline w)).
Qed.

(** ** Sequences of resolve calls *)

Section Resolve.

Variable w : World.

Lemma resolve_all_reachable keys s :
  reachable w s -> reachable w (resolve_all w keys s).
Proof.
  revert s. induction keys as [| k rest IH]; intros s H; simpl; [exact H |].
  apply IH. exact (reachable_serve w (ReqResolve k) s H).
Qed.

(** One call: the key asked for is cached afterwards exactly when it was
    before or the call returned; no other key is affected. *)
Lemma get_pipeline_cached_after k key s :
  is_Some (_translation_pipelines (snd (_get_pipeline w k s)) !! key) <->
  is_Some (_translation_pipelines s !! key) \/
  (k = key /\ is_ok (fst (_get_pipeline w k s)) = true).
Proof.
  destruct (_translation_pipelines s !! k) as [p |] eqn:Hc.
  { rewrite (get_pipeline_cached _ _ _ _ Hc). simpl. split; [auto |].
    intros [H | [<- _]]; [exact H | now rewrite Hc]. }
  destruct (LANGUAGE_MODELS !! k) as [m |] eqn:Hm.
  2: { rewrite (get_pipeline_unconfigured _ _ _ Hc Hm). simpl.
       split; [auto | now intros [H | [_ H]]]. }
  destruct (hf_pipeline w (clock s) m) as [e |] eqn:Hb.
  { rewrite (get_pipeline_not_built _ _ _ _ _ Hc Hm Hb). simpl.
    split; [auto | now intros [H | [_ H]]]. }
  rewrite (get_pipeline_built _ _ _ _ Hc Hm Hb). simpl.
  rewrite lookup_insert. case_decide as Hk.
  - split; [auto | intros _; eauto].
  - split; [auto | now intros [H | [H _]]].
Qed.

Lemma resolve_all_cached keys s key :
  is_Some (_translation_pipelines (resolve_all w keys s) !! key) <->
  is_Some (_translation_pipelines s !! key) \/ returned w keys s key = true.
Proof.
  revert s. induction keys as [| k rest IH]; intros s; simpl.
  { split; [auto | now intros [H | H]]. }
  rewrite IH, get_pipeline_cached_after.
  destruct (_get_pipeline w k s) as [r s'] eqn:E. simpl.
  rewrite orb_true_iff, andb_true_iff, String.eqb_eq. tauto.
Qed.

End Resolve.

(** ** The chat turn *)

Section Chat.

Variable w : World.

(** A completion call leaves one event, makes at most four library calls
    and touches neither the cache nor the pipes. *)
Lemma generate_reply_state user_text system api_key s :
  let s' := snd (generate_reply w user_text system api_key s) in
  trace s' = trace s ++ [CallGenerateReply user_text]
  /\ _translation_pipelines s' = _translation_pipelines s
  /\ next_id s' = next_id s
  /\ clock s <= clock s' <= clock s + 4.
Proof.
  unfold generate_reply, get_llm, lift_ctor, lift_result, raise, mbind, M_bind,
    mret, M_ret, emit, tick. simpl.
  repeat match goal with
         | |- context [match ?x with _ => _ end] =>
             lazymatch x with
             | context [match _ with _ => _ end] => fail
             | _ => destruct x; simpl
             end
         end; repeat split; first [reflexivity | lia].
Qed.

(** A completion call leaves one event and does not touch the cache. *)
Lemma generate_reply_effect user_text system api_key s :
  let s' := snd (generate_reply w user_text system api_key s) in
  trace s' = trace s ++ [CallGenerateReply user_text] /\ same_cache s s'.
Proof.
  destruct (generate_reply_state user_text system api_key s) as (Ht & Hc & _).
  now split.
Qed.

(** With an English source the text goes to the completion as it is. *)
Lemma user_en_of_english text src s :
  py_eq_str src "en" = true -> user_en_of w text src s = (Ok text, s).
Proof. intros H. unfold user_en_of. now rewrite H. Qed.

(** With an English output language the reply is the completion as it is. *)
Lemma bot_out_of_english bot_en out_lang s :
  py_eq_str out_lang "en" = true -> bot_out_of w bot_en out_lang s = (Ok bot_en, s).
Proof. intros H. unfold bot_out_of. now rewrite H. Qed.

Lemma extends_bot_out_of bot_en out_lang :
  respects (extends (fun ev => is_completion ev = false)) (bot_out_of w bot_en out_lang).
Proof.
  unfold bot_out_of. apply respects_if; [| apply extends_ret].
  now apply extends_translate_text.
Qed.

(** The turn when the output language is English: step 4 does nothing. *)
Lemma chat_turn_english_out payload s :
  let text := dict_get payload "text" PyNone in
  let src := dict_get payload "source_language" (PyStr "en") in
  let tgt := dict_get payload "bot_language" (PyStr "en") in
  py_eq_str (out_lang_of src tgt) "en" = true ->
  chat_turn w payload s =
  (user_en ← user_en_of w text src;
   bot_en ← generate_reply w user_en SYSTEM_PROMPT None;
   mret {| reply := bot_en; reply_en := bot_en; detected_source := src |}) s.
Proof.
  intros text src tgt H. unfold chat_turn. fold text src tgt.
  unfold mbind, M_bind.
  destruct (user_en_of w text src s) as [[user_en | e] s1]; [| reflexivity].
  destruct (generate_reply w user_en SYSTEM_PROMPT None s1) as [[bot_en | e] s2];
    [| reflexivity].
  now rewrite bot_out_of_english.
Qed.

(** The turn when the source language is English: step 1 does nothing. *)
Lemma chat_turn_english_in payload s :
  let text := dict_get payload "text" PyNone in
  let src := dict_get payload "source_language" (PyStr "en") in
  let tgt := dict_get payload "bot_language" (PyStr "en") in
  py_eq_str src "en" = true ->
  chat_turn w payload s =
  (bot_en ← generate_reply w text SYSTEM_PROMPT None;
   bot_out ← bot_out_of w bot_en (out_lang_of src tgt);
   mret {| reply := bot_out; reply_en := bot_en; detected_source := src |}) s.
Proof.
  intros text src tgt H. unfold chat_turn. fold text src tgt.
  unfold mbind at 1. unfold M_bind at 1. now rewrite user_en_of_english.
Qed.

(** The turn when both are English: only the completion runs. *)
Lemma chat_turn_english payload s :
  let text := dict_get payload "text" PyNone in
  let src := dict_get payload "source_language" (PyStr "en") in
  let tgt := dict_get payload "bot_language" (PyStr "en") in
  py_eq_str src "en" = true ->
  py_eq_str (out_lang_of src tgt) "en" = true ->
  let completion := generate_reply w text SYSTEM_PROMPT None s in
  chat_turn w payload s =
  (match fst completion with
   | Ok bot_en => Ok {| reply := bot_en; reply_en := bot_en; detected_source := src |}
   | Raise e => Raise e
   end, snd completion).
Proof.
  intros text src tgt H1 H2 completion.
  rewrite chat_turn_english_out by exact H2. fold text src.
  unfold mbind, M_bind. rewrite user_en_of_english by exact H1.
  subst completion.
  now destruct (generate_reply w text SYSTEM_PROMPT None s) as [[bot_en | e] s2].
Qed.

End Chat.

(** ** Properties of the pipeline cache *)

(** C3. A pair with no entry in [LANGUAGE_MODELS] is never resolved: in every
    state the process can reach, [_get_pipeline] raises the configuration
    error of the code, a [ValueError] whose message ends with the missing
    pair, and the state, with the cache in it, is left as it was. *)
Theorem resolve_unconfigured_fails (w : World) (P : string) (s : State) :
  reachable w s ->
  LANGUAGE_MODELS !! P = None ->
  _get_pipeline w P s =
  (Raise (ValueError ("No translation model configured for " +:+ P)), s).
Proof.
  intros Hs HP. apply get_pipeline_unconfigured; [| exact HP].
  destruct (_translation_pipelines s !! P) as [p |] eqn:Hc; [| reflexivity].
  apply (inv_configured s (reachable_cache_inv w s Hs)) in Hc. congruence.
Qed.

Lemma resolve_unconfigured_fails_witness :
  let msg := {| text := "Hello"; source_language := "en" |} in
  let s := serve demo_world (ReqTranslateApi msg "hi") initial in
  reachable demo_world s /\
  LANGUAGE_MODELS !! "fr->en" = None /\
  _get_pipeline demo_world "fr->en" s =
  (Raise (ValueError "No translation model configured for fr->en"), s).
Proof.
  intros msg s.
  assert (Hs : reachable demo_world s) by apply reachable_serve, reachable_initial.
  assert (HP : LANGUAGE_MODELS !! "fr->en" = None) by (vm_compute; reflexivity).
  split; [exact Hs | split; [exact HP |]].
  exact (resolve_unconfigured_fails demo_world "fr->en" s Hs HP).
Defined.

(** C4. For a configured pair, a second [_get_pipeline] call returns the very
    pipe the first one returned (same object, [pipe_id] included) and leaves
    the state as the first call left it: nothing is built again, no library
    is called. The same holds after any requests served in between. A cached
    pipe is returned as it is, and the first call does return whenever the
    pipe is cached or its construction succeeds. *)
Theorem resolve_twice_same_instance (w : World) (P model_id : string) (s : State) :
  LANGUAGE_MODELS !! P = Some model_id ->
  (forall pipe s1,
     _get_pipeline w P s = (Ok pipe, s1) ->
     _get_pipeline w P s1 = (Ok pipe, s1)
     /\ forall reqs,
          _get_pipeline w P (serve_all w reqs s1) = (Ok pipe, serve_all w reqs s1))
  /\ (forall pipe,
        _translation_pipelines s !! P = Some pipe -> _get_pipeline w P s = (Ok pipe, s))
  /\ (is_Some (_translation_pipelines s !! P) \/ hf_pipeline w (clock s) model_id = None ->
      exists pipe s1, _get_pipeline w P s = (Ok pipe, s1)).
Proof.
  intros HP. split; [| split].
  - intros pipe s1 H.
    apply (get_pipeline_returns w P pipe s s1) in H. split.
    + now apply get_pipeline_cached.
    + intros reqs. apply get_pipeline_cached.
      now apply (cache_grows_serve_all w reqs s1).
  - intros pipe. apply get_pipeline_cached.
  - intros H.
    destruct (_translation_pipelines s !! P) as [p |] eqn:Hc.
    { exists p, s. now apply get_pipeline_cached. }
    destruct H as [[p H] | H]; [discriminate |].
    rewrite (get_pipeline_built w P model_id s Hc HP H). eexists _, _. reflexivity.
Qed.

Lemma resolve_twice_same_instance_witness :
  let pipe := {| pipe_id := 0; pipe_model := "Helsinki-NLP/opus-mt-en-hi" |} in
  let s1 := snd (_get_pipeline demo_world "en->hi" initial) in
  let msg := {| text := "Hello"; source_language := "en" |} in
  let s2 := serve_all demo_world [ReqTranslateApi msg "ja"; ReqResolve "fr->en"] s1 in
  LANGUAGE_MODELS !! "en->hi" = Some "Helsinki-NLP/opus-mt-en-hi" /\
  _get_pipeline demo_world "en->hi" initial = (Ok pipe, s1) /\
  _get_pipeline demo_world "en->hi" s1 = (Ok pipe, s1) /\
  _get_pipeline demo_world "en->hi" s2 = (Ok pipe, s2).
Proof.
  intros pipe s1 msg s2.
  assert (HP : LANGUAGE_MODELS !! "en->hi" = Some "Helsinki-NLP/opus-mt-en-hi")
    by (vm_compute; reflexivity).
  assert (H1 : _get_pipeline demo_world "en->hi" initial = (Ok pipe, s1))
    by (vm_compute; reflexivity).
  split; [exact HP | split; [exact H1 |]].
  destruct (proj1 (resolve_twice_same_instance demo_world "en->hi" _ initial HP) pipe s1 H1)
    as [H2 H3].
  split; [exact H2 | exact (H3 _)].
Defined.

(** C7, as stated, fails: a resolve call for the pair [fr->en], which is not
    configured, raises and writes nothing, so over this sequence the cache is
    written zero times for the key, not once. *)
Lemma resolve_unconfigured_never_stored :
  let s := resolve_all demo_world ["fr->en"] initial in
  In "fr->en" ["fr->en"]
  /\ s = initial
  /\ stores "fr->en" (trace s) = []
  /\ length (stores "fr->en" (trace s)) <> 1.
Proof.
  intros s. split; [now left |]. split; [vm_compute; reflexivity |].
  split; [vm_compute; reflexivity | vm_compute; discriminate].
Qed.

(** C7, amended. In every state the process can reach, the pipes ever written
    into the cache under a key are exactly the one cached there, so the cache
    holds at most one pipe per key and is written at most once per key; over
    a sequence of resolve calls from the start of the process it is written
    once for each key for which one of the calls returned a pipe and never
    for a key whose calls all raised. *)
Theorem cache_written_once_per_cached_key (w : World) :
  (forall s key, reachable w s ->
     stores key (trace s) =
     match _translation_pipelines s !! key with Some p => [p] | None => [] end)
  /\ (forall keys key,
        length (stores key (trace (resolve_all w keys initial))) =
        if returned w keys initial key then 1 else 0).
Proof.
  split.
  - intros s key Hs. apply (inv_stores s (reachable_cache_inv w s Hs)).
  - intros keys key.
    assert (Hs : reachable w (resolve_all w keys initial))
      by apply resolve_all_reachable, reachable_initial.
    rewrite (inv_stores _ (reachable_cache_inv w _ Hs)).
    pose proof (resolve_all_cached w keys initial key) as Hc.
    destruct (returned w keys initial key).
    + destruct (proj2 Hc (or_intror eq_refl)) as [p ->]. reflexivity.
    + destruct (_translation_pipelines (resolve_all w keys initial) !! key) eqn:E;
        [| reflexivity].
      destruct (proj1 Hc (ex_intro _ _ eq_refl)) as [[p0 Hp] | Hr]; [| discriminate].
      simpl in Hp. now rewrite lookup_empty in Hp.
Qed.

(** ** Properties of [translate_text] and of the unary endpoint *)

Section Translate.

Variable w : World.

(** What follows the entry into [translate_text] adds no completion call. *)
Lemma translate_text_trace text src tgt s :
  exists evs,
    trace (snd (translate_text w text src tgt s)) =
    trace s ++ CallTranslateText text src tgt :: evs
    /\ Forall (fun ev => is_completion ev = false) evs.
Proof.
  unfold translate_text. unfold mbind at 1. unfold M_bind at 1. simpl.
  match goal with |- context [(?c ≫= ?k) ?s1] =>
    assert (Hrest : respects (extends (fun ev => is_completion ev = false)) (c ≫= k))
  end.
  { apply extends_bind; [now apply extends_get_pipeline | intros pipe].
    apply extends_bind; [now apply extends_call_pipe | intros out].
    destruct out as [| first ?]; [apply extends_raise |].
    destruct (first !! "translation_text"); [apply extends_ret | apply extends_raise]. }
  match goal with |- context [snd (?c ?s1)] =>
    destruct (Hrest s1) as (evs & E & F)
  end.
  exists evs. split; [| exact F]. rewrite E. simpl. now rewrite <- app_assoc.
Qed.

(** The endpoint is [translate_text] with the exceptions that derive from
    [Exception] turned into the [HTTPException]. *)
Lemma translate_api_unfold msg target s :
  let call :=
    translate_text w (PyStr (text msg)) (PyStr (source_language msg)) (PyStr target) s in
  translate_api w msg target s =
  (match fst call with
   | Ok out => Translated out
   | Raise e => if is_Exception e then HTTPException 500 (exn_str e) else Uncaught e
   end, snd call).
Proof.
  unfold translate_api.
  destruct (translate_text w (PyStr (text msg)) (PyStr (source_language msg))
              (PyStr target) s) as [[out | e] s']; [reflexivity |].
  cbv beta iota zeta delta [fst snd]. now destruct (is_Exception e).
Qed.

End Translate.

(** C1, as stated, fails: step 4 of the chat turn passes an English target
    through and translates from English, while the endpoint asks for the pair
    of the body's [source_language] and [target]. For [en] to [en] it answers
    with the error of the unconfigured pair [en->en] where step 4 returns the
    text, and for [hi] to [en] it runs the [hi->en] model where step 4 returns
    the text. *)
Lemma translate_api_not_step4 :
  fst (translate_api demo_world {| text := "Hello"; source_language := "en" |} "en" initial) =
    HTTPException 500 "No translation model configured for en->en"
  /\ fst (bot_out_of demo_world "Hello" (PyStr "en") initial) = Ok "Hello"
  /\ fst (translate_api demo_world {| text := "Namaste"; source_language := "hi" |} "en"
           initial) =
       Translated "Helsinki-NLP/opus-mt-hi-en: Namaste"
  /\ fst (bot_out_of demo_world "Namaste" (PyStr "en") initial) = Ok "Namaste".
Proof. repeat split; vm_compute; reflexivity. Qed.

(** C1, amended. The endpoint returns [{translated}] computed by one
    [translate_text] call from the body's [source_language] to [target]: its
    answer and its effect on the state are those of that call, the call is
    made whatever the target is, and no completion call is made. *)
Theorem translate_api_translates_from_source
    (w : World) (msg : ChatMessage) (target : string) (s : State) :
  let call :=
    translate_text w (PyStr (text msg)) (PyStr (source_language msg)) (PyStr target) s in
  let answer := translate_api w msg target s in
  snd answer = snd call
  /\ (forall out, fst answer = Translated out <-> fst call = Ok out)
  /\ exists evs,
       trace (snd answer) =
       trace s ++
       CallTranslateText (PyStr (text msg)) (PyStr (source_language msg)) (PyStr target)
       :: evs
       /\ Forall (fun ev => is_completion ev = false) evs.
Proof.
  intros call answer. subst answer. rewrite translate_api_unfold. fold call. simpl.
  split; [reflexivity |]. split.
  - intros out. destruct (fst call) as [o | e]; [| destruct (is_Exception e)];
      split; congruence.
  - apply translate_text_trace.
Qed.

(** C2, as stated, fails: when the model of the [en->hi] pipe raises a
    [RuntimeError], [translate_text] raises that very exception; its class is
    not [TranslationError] and nothing wraps it. *)
Lemma translate_text_does_not_wrap :
  let pipe := {| pipe_id := 0; pipe_model := "Helsinki-NLP/opus-mt-en-hi" |} in
  let cause := RuntimeError "CUDA out of memory" in
  pipe_call failing_model_world 1 pipe (PyStr "Hi") = Raise cause
  /\ fst (translate_text failing_model_world (PyStr "Hi") (PyStr "en") (PyStr "hi") initial)
     = Raise cause
  /\ exn_class cause <> "TranslationError"
  /\ exn_cause cause <> Some cause.
Proof. repeat split; vm_compute; congruence. Qed.

(** C2, amended. For every text, when [translate_text] has resolved the pipe
    of the pair and the model invocation [pipe(text)] raises [e], the caller
    gets [e] itself, not wrapped in another exception. *)
Theorem translate_text_propagates_model_failure
    (w : World) (text src tgt : pyval) (s s1 : State) (pipe : Pipe) (e : exn) :
  _get_pipeline w (py_str src +:+ "->" +:+ py_str tgt)
    (snd (emit (CallTranslateText text src tgt) s)) = (Ok pipe, s1) ->
  pipe_call w (clock s1) pipe text = Raise e ->
  fst (translate_text w text src tgt s) = Raise e.
Proof.
  intros Hp He. unfold translate_text.
  unfold mbind at 1. unfold M_bind at 1.
  change (emit (CallTranslateText text src tgt) s)
    with (Ok tt, snd (emit (CallTranslateText text src tgt) s)).
  cbv iota beta. erewrite bind_ok by exact Hp.
  unfold call_pipe, mbind, M_bind, lift_result. simpl. now rewrite He.
Qed.

Lemma translate_text_propagates_model_failure_witness :
  let pipe := {| pipe_id := 0; pipe_model := "Helsinki-NLP/opus-mt-en-hi" |} in
  let entered := snd (emit (CallTranslateText (PyStr "Hi") (PyStr "en") (PyStr "hi")) initial) in
  let s1 := snd (_get_pipeline failing_model_world "en->hi" entered) in
  _get_pipeline failing_model_world "en->hi" entered = (Ok pipe, s1)
  /\ pipe_call failing_model_world (clock s1) pipe (PyStr "Hi") =
     Raise (RuntimeError "CUDA out of memory")
  /\ fst (translate_text failing_model_world (PyStr "Hi") (PyStr "en") (PyStr "hi") initial) =
     Raise (RuntimeError "CUDA out of memory").
Proof.
  intros pipe entered s1.
  assert (Hp : _get_pipeline failing_model_world "en->hi" entered = (Ok pipe, s1))
    by (vm_compute; reflexivity).
  assert (He : pipe_call failing_model_world (clock s1) pipe (PyStr "Hi") =
               Raise (RuntimeError "CUDA out of memory")) by reflexivity.
  split; [exact Hp | split; [exact He |]].
  exact (translate_text_propagates_model_failure failing_model_world
           (PyStr "Hi") (PyStr "en") (PyStr "hi") initial s1 pipe _ Hp He).
Defined.

(** ** Properties of the chat turn *)

Lemma dict_get_some (payload : gmap string pyval) field dflt v :
  payload !! field = Some v -> dict_get payload field dflt = v.
Proof. intros H. unfold dict_get. now rewrite H. Qed.

Lemma dict_get_none (payload : gmap string pyval) field dflt :
  payload !! field = None -> dict_get payload field dflt = dflt.
Proof. intros H. unfold dict_get. now rewrite H. Qed.

(** Filling in another field does not change what [dict.get] reads. *)
Lemma dict_get_insert_ne (payload : gmap string pyval) field other v dflt :
  other <> field ->
  dict_get (<[other := v]> payload) field dflt = dict_get payload field dflt.
Proof. intros H. unfold dict_get. now rewrite lookup_insert_ne. Qed.

Lemma dict_get_insert (payload : gmap string pyval) field v dflt :
  dict_get (<[field := v]> payload) field dflt = v.
Proof. unfold dict_get. now rewrite lookup_insert_eq. Qed.

(** C5. For every text, a message with [source_language] and [bot_language]
    both ["en"] makes no translation call and exactly one completion call,
    with the text as it came: the turn adds that one event to the trace and
    leaves the cache alone. When the completion returns, [reply] and
    [reply_en] are both its result and [detected_source] is ["en"]; when it
    raises, so does the turn. *)
Theorem chat_english_to_english (w : World) (payload : gmap string pyval) (s : State) :
  payload !! "source_language" = Some (PyStr "en") ->
  payload !! "bot_language" = Some (PyStr "en") ->
  let text := dict_get payload "text" PyNone in
  let completion := generate_reply w text SYSTEM_PROMPT None s in
  let turn := chat_turn w payload s in
  trace (snd turn) = trace s ++ [CallGenerateReply text]
  /\ same_cache s (snd turn)
  /\ fst turn =
     match fst completion with
     | Ok bot_en =>
         Ok {| reply := bot_en; reply_en := bot_en; detected_source := PyStr "en" |}
     | Raise e => Raise e
     end.
Proof.
  intros Hsrc Htgt text completion turn. subst turn completion text.
  pose proof (chat_turn_english w payload s) as H. cbv zeta in H.
  rewrite (dict_get_some _ _ _ _ Hsrc), (dict_get_some _ _ _ _ Htgt) in H.
  rewrite (H eq_refl eq_refl). simpl.
  destruct (generate_reply_effect w (dict_get payload "text" PyNone) SYSTEM_PROMPT None s)
    as [Ht Hc].
  auto.
Qed.

Lemma chat_english_to_english_witness :
  let payload : gmap string pyval :=
    {[ "text" := PyStr "Hello"; "source_language" := PyStr "en";
       "bot_language" := PyStr "en" ]} in
  let turn := chat_turn demo_world payload initial in
  payload !! "source_language" = Some (PyStr "en")
  /\ payload !! "bot_language" = Some (PyStr "en")
  /\ trace (snd turn) = [CallGenerateReply (PyStr "Hello")]
  /\ fst turn =
     Ok {| reply := "Echo Hello"; reply_en := "Echo Hello"; detected_source := PyStr "en" |}.
Proof.
  intros payload turn.
  assert (Hsrc : payload !! "source_language" = Some (PyStr "en"))
    by (vm_compute; reflexivity).
  assert (Htgt : payload !! "bot_language" = Some (PyStr "en"))
    by (vm_compute; reflexivity).
  split; [exact Hsrc | split; [exact Htgt |]].
  destruct (chat_english_to_english demo_world payload initial Hsrc Htgt)
    as (Ht & _ & Hr).
  split; [exact Ht | exact Hr].
Defined.

(** C6. With [bot_language] the sentinel ["source"] the output language is
    the [source_language] of the message, and step 4 runs with it. For a
    message in English with that sentinel the output language is ["en"]: the
    turn makes the completion call and nothing else, no output translation,
    and the reply is the English intermediate. *)
Theorem chat_bot_language_source (w : World) (payload : gmap string pyval) (s : State) :
  payload !! "bot_language" = Some (PyStr "source") ->
  let text := dict_get payload "text" PyNone in
  let src := dict_get payload "source_language" (PyStr "en") in
  let tgt := dict_get payload "bot_language" (PyStr "en") in
  let turn := chat_turn w payload s in
  out_lang_of src tgt = src
  /\ turn =
     (user_en ← user_en_of w text src;
      bot_en ← generate_reply w user_en SYSTEM_PROMPT None;
      bot_out ← bot_out_of w bot_en src;
      mret {| reply := bot_out; reply_en := bot_en; detected_source := src |}) s
  /\ (src = PyStr "en" ->
      out_lang_of src tgt = PyStr "en"
      /\ trace (snd turn) = trace s ++ [CallGenerateReply text]
      /\ fst turn =
         match fst (generate_reply w text SYSTEM_PROMPT None s) with
         | Ok bot_en =>
             Ok {| reply := bot_en; reply_en := bot_en; detected_source := PyStr "en" |}
         | Raise e => Raise e
         end).
Proof.
  intros Htgt text src tgt turn.
  assert (Et : tgt = PyStr "source") by apply (dict_get_some _ _ _ _ Htgt).
  assert (Eo : out_lang_of src tgt = src) by now rewrite Et.
  split; [exact Eo |]. split.
  - subst turn. unfold chat_turn. fold text src tgt. now rewrite Eo.
  - intros Es. rewrite Eo. split; [exact Es |].
    pose proof (chat_turn_english w payload s) as H. cbv zeta in H.
    fold text src tgt turn in H. rewrite Eo, Es in H.
    rewrite (H eq_refl eq_refl). simpl.
    split; [| reflexivity].
    apply (generate_reply_effect w text SYSTEM_PROMPT None s).
Qed.

Lemma chat_bot_language_source_witness :
  let payload : gmap string pyval :=
    {[ "text" := PyStr "Hello"; "source_language" := PyStr "en";
       "bot_language" := PyStr "source" ]} in
  let turn := chat_turn demo_world payload initial in
  payload !! "bot_language" = Some (PyStr "source")
  /\ dict_get payload "source_language" (PyStr "en") = PyStr "en"
  /\ trace (snd turn) = [CallGenerateReply (PyStr "Hello")]
  /\ fst turn =
     Ok {| reply := "Echo Hello"; reply_en := "Echo Hello"; detected_source := PyStr "en" |}.
Proof.
  intros payload turn.
  assert (Htgt : payload !! "bot_language" = Some (PyStr "source"))
    by (vm_compute; reflexivity).
  assert (Es : dict_get payload "source_language" (PyStr "en") = PyStr "en")
    by (vm_compute; reflexivity).
  split; [exact Htgt | split; [exact Es |]].
  destruct (chat_bot_language_source demo_world payload initial Htgt)
    as (_ & _ & H).
  destruct (H Es) as (_ & Ht & Hr). split; [exact Ht | exact Hr].
Defined.

(** C9. A message whose object has no [bot_language] field is processed as
    the same message with [bot_language] set to ["en"]: the turns are equal,
    result and state. The output language is ["en"], step 4 does nothing: the
    reply is the English intermediate and the completion call is the last
    call of the turn. *)
Theorem chat_missing_bot_language (w : World) (payload : gmap string pyval) (s : State) :
  payload !! "bot_language" = None ->
  let text := dict_get payload "text" PyNone in
  let src := dict_get payload "source_language" (PyStr "en") in
  let tgt := dict_get payload "bot_language" (PyStr "en") in
  let turn := chat_turn w payload s in
  turn = chat_turn w (<["bot_language" := PyStr "en"]> payload) s
  /\ out_lang_of src tgt = PyStr "en"
  /\ turn =
     (user_en ← user_en_of w text src;
      bot_en ← generate_reply w user_en SYSTEM_PROMPT None;
      mret {| reply := bot_en; reply_en := bot_en; detected_source := src |}) s
  /\ (forall r s', turn = (Ok r, s') ->
        reply r = reply_en r
        /\ exists user_en, last (trace s') = Some (CallGenerateReply user_en)).
Proof.
  intros Htgt text src tgt turn.
  assert (Et : tgt = PyStr "en") by apply (dict_get_none _ _ _ Htgt).
  assert (Eo : out_lang_of src tgt = PyStr "en") by now rewrite Et.
  assert (Eq : turn =
     (user_en ← user_en_of w text src;
      bot_en ← generate_reply w user_en SYSTEM_PROMPT None;
      mret {| reply := bot_en; reply_en := bot_en; detected_source := src |}) s).
  { subst turn. apply chat_turn_english_out. fold src tgt. now rewrite Eo. }
  split; [| split; [exact Eo | split; [exact Eq |]]].
  - subst turn. unfold chat_turn.
    rewrite (dict_get_insert_ne _ "text"), (dict_get_insert_ne _ "source_language")
      by discriminate.
    rewrite dict_get_insert. fold text src tgt. now rewrite Et.
  - intros r s' H. rewrite Eq in H. unfold mbind, M_bind in H.
    destruct (user_en_of w text src s) as [[user_en | e] s1]; [| discriminate].
    pose proof (generate_reply_effect w user_en SYSTEM_PROMPT None s1) as [Ht _].
    destruct (generate_reply w user_en SYSTEM_PROMPT None s1) as [[bot_en | e] s2];
      [| discriminate].
    simpl in Ht. injection H as <- <-. split; [reflexivity |].
    exists user_en. rewrite Ht. apply last_snoc.
Qed.

Lemma chat_missing_bot_language_witness :
  let payload : gmap string pyval :=
    {[ "text" := PyStr "Namaste"; "source_language" := PyStr "hi" ]} in
  let turn := chat_turn demo_world payload initial in
  payload !! "bot_language" = None
  /\ turn = chat_turn demo_world (<["bot_language" := PyStr "en"]> payload) initial
  /\ fst turn =
     Ok {| reply := "Echo Helsinki-NLP/opus-mt-hi-en: Namaste";
           reply_en := "Echo Helsinki-NLP/opus-mt-hi-en: Namaste";
           detected_source := PyStr "hi" |}.
Proof.
  intros payload turn.
  assert (Htgt : payload !! "bot_language" = None) by (vm_compute; reflexivity).
  split; [exact Htgt |].
  split; [exact (proj1 (chat_missing_bot_language demo_world payload initial Htgt)) |].
  vm_compute; reflexivity.
Defined.

(** C10. A message whose object has no [source_language] field is processed
    as the same message with [source_language] set to ["en"]: the turns are
    equal, result and state. No inbound translation is made: the first call
    of the turn is the completion call, with the text as it came, and it is
    the only completion call; the [detected_source] sent back is ["en"]. *)
Theorem chat_missing_source_language (w : World) (payload : gmap string pyval) (s : State) :
  payload !! "source_language" = None ->
  let text := dict_get payload "text" PyNone in
  let tgt := dict_get payload "bot_language" (PyStr "en") in
  let turn := chat_turn w payload s in
  turn = chat_turn w (<["source_language" := PyStr "en"]> payload) s
  /\ turn =
     (bot_en ← generate_reply w text SYSTEM_PROMPT None;
      bot_out ← bot_out_of w bot_en (out_lang_of (PyStr "en") tgt);
      mret {| reply := bot_out; reply_en := bot_en; detected_source := PyStr "en" |}) s
  /\ (exists evs,
        trace (snd turn) = trace s ++ CallGenerateReply text :: evs
        /\ Forall (fun ev => is_completion ev = false) evs)
  /\ (forall r s', turn = (Ok r, s') -> detected_source r = PyStr "en").
Proof.
  intros Hsrc text tgt turn.
  assert (Es : dict_get payload "source_language" (PyStr "en") = PyStr "en")
    by apply (dict_get_none _ _ _ Hsrc).
  assert (Eq : turn =
     (bot_en ← generate_reply w text SYSTEM_PROMPT None;
      bot_out ← bot_out_of w bot_en (out_lang_of (PyStr "en") tgt);
      mret {| reply := bot_out; reply_en := bot_en; detected_source := PyStr "en" |}) s).
  { subst turn. pose proof (chat_turn_english_in w payload s) as H. cbv zeta in H.
    rewrite Es in H. exact (H eq_refl). }
  split; [| split; [exact Eq |]].
  - subst turn. unfold chat_turn.
    rewrite (dict_get_insert_ne _ "text"), (dict_get_insert_ne _ "bot_language")
      by discriminate.
    rewrite dict_get_insert. fold text tgt. now rewrite Es.
  - rewrite Eq. unfold mbind, M_bind.
    pose proof (generate_reply_effect w text SYSTEM_PROMPT None s) as [Ht _].
    destruct (generate_reply w text SYSTEM_PROMPT None s) as [[bot_en | e] s1];
      simpl in Ht.
    2: { split; [exists []; split; [exact Ht | constructor] | discriminate]. }
    pose proof (extends_bot_out_of w bot_en (out_lang_of (PyStr "en") tgt) s1)
      as (evs & E & F).
    destruct (bot_out_of w bot_en (out_lang_of (PyStr "en") tgt) s1)
      as [[bot_out | e] s2]; simpl in E |- *.
    + split; [| now intros r s' [= <- _]].
      exists evs. split; [| exact F]. now rewrite E, Ht, <- app_assoc.
    + split; [| discriminate].
      exists evs. split; [| exact F]. now rewrite E, Ht, <- app_assoc.
Qed.

Lemma chat_missing_source_language_witness :
  let payload : gmap string pyval :=
    {[ "text" := PyStr "Hi"; "bot_language" := PyStr "ja" ]} in
  let turn := chat_turn demo_world payload initial in
  payload !! "source_language" = None
  /\ turn = chat_turn demo_world (<["source_language" := PyStr "en"]> payload) initial
  /\ fst turn =
     Ok {| reply := "Helsinki-NLP/opus-mt-en-jap: Echo Hi";
           reply_en := "Echo Hi";
           detected_source := PyStr "en" |}.
Proof.
  intros payload turn.
  assert (Hsrc : payload !! "source_language" = None) by (vm_compute; reflexivity).
  split; [exact Hsrc |].
  split; [exact (proj1 (chat_missing_source_language demo_world payload initial Hsrc)) |].
  vm_compute; reflexivity.
Defined.

(** ** Scenarios *)

(** Hindi in, English out: the [hi->en] pipe is built and called, then the
    completion; no second translation, and the reply is the English one. *)
Example scenario_hindi_to_english :
  let payload : gmap string pyval :=
    {[ "text" := PyStr "Namaste"; "source_language" := PyStr "hi";
       "bot_language" := PyStr "en" ]} in
  let pipe := {| pipe_id := 0; pipe_model := "Helsinki-NLP/opus-mt-hi-en" |} in
  let turn := chat_turn demo_world payload initial in
  fst turn =
    Ok {| reply := "Echo Helsinki-NLP/opus-mt-hi-en: Namaste";
          reply_en := "Echo Helsinki-NLP/opus-mt-hi-en: Namaste";
          detected_source := PyStr "hi" |}
  /\ trace (snd turn) =
     [ CallTranslateText (PyStr "Namaste") (PyStr "hi") (PyStr "en");
       CallPipeline "Helsinki-NLP/opus-mt-hi-en";
       CacheStore "hi->en" pipe;
       CallPipe pipe (PyStr "Namaste");
       CallGenerateReply (PyStr "Helsinki-NLP/opus-mt-hi-en: Namaste") ].
Proof. split; vm_compute; reflexivity. Qed.

(** English in, Japanese out: the completion, then the [en->ja] pipe. *)
Example scenario_english_to_japanese :
  let payload : gmap string pyval :=
    {[ "text" := PyStr "Hi"; "source_language" := PyStr "en";
       "bot_language" := PyStr "ja" ]} in
  let pipe := {| pipe_id := 0; pipe_model := "Helsinki-NLP/opus-mt-en-jap" |} in
  let turn := chat_turn demo_world payload initial in
  fst turn =
    Ok {| reply := "Helsinki-NLP/opus-mt-en-jap: Echo Hi";
          reply_en := "Echo Hi";
          detected_source := PyStr "en" |}
  /\ trace (snd turn) =
     [ CallGenerateReply (PyStr "Hi");
       CallTranslateText (PyStr "Echo Hi") (PyStr "en") (PyStr "ja");
       CallPipeline "Helsinki-NLP/opus-mt-en-jap";
       CacheStore "en->ja" pipe;
       CallPipe pipe (PyStr "Echo Hi") ].
Proof. split; vm_compute; reflexivity. Qed.

(** French in: the pair [fr->en] is not configured and the turn raises. *)
Example scenario_unsupported_pair :
  let payload : gmap string pyval :=
    {[ "text" := PyStr "Bonjour"; "source_language" := PyStr "fr";
       "bot_language" := PyStr "en" ]} in
  fst (chat_turn demo_world payload initial) =
  Raise (ValueError "No translation model configured for fr->en").
Proof. vm_compute; reflexivity. Qed.

(** Two connections that both speak Hindi share one [hi->en] pipe: it is
    built during the first turn only. *)
Example scenario_shared_cache :
  let payload : gmap string pyval :=
    {[ "text" := PyStr "Namaste"; "source_language" := PyStr "hi" ]} in
  let s := serve_all demo_world [ReqChat [payload]; ReqChat [payload]] initial in
  stores "hi->en" (trace s) =
    [ {| pipe_id := 0; pipe_model := "Helsinki-NLP/opus-mt-hi-en" |} ]
  /\ next_id s = 1.
Proof. split; vm_compute; reflexivity. Qed.

(** ** More on [translate_text] *)

Section TranslateText.

Variable w : World.

Lemma reachable_unconfigured_absent s key :
  reachable w s -> LANGUAGE_MODELS !! key = None ->
  _translation_pipelines s !! key = None.
Proof.
  intros Hs Hk.
  destruct (_translation_pipelines s !! key) as [p |] eqn:Hc; [| reflexivity].
  apply (inv_configured s (reachable_cache_inv w s Hs)) in Hc. congruence.
Qed.

(** [translate_text] when the pair cannot be resolved. *)
Lemma translate_text_unresolved text src tgt s e s1 :
  _get_pipeline w (py_str src +:+ "->" +:+ py_str tgt) (entered text src tgt s)
    = (Raise e, s1) ->
  translate_text w text src tgt s = (Raise e, s1).
Proof.
  intros H. unfold translate_text. unfold mbind at 1. unfold M_bind at 1.
  change (emit (CallTranslateText text src tgt) s)
    with (Ok tt, entered text src tgt s).
  cbv iota beta. unfold mbind, M_bind. now rewrite H.
Qed.

(** [translate_text] once the pair is resolved: one call of the pipe, then
    the first candidate. *)
Lemma translate_text_resolved text src tgt s pipe s1 :
  _get_pipeline w (py_str src +:+ "->" +:+ py_str tgt) (entered text src tgt s)
    = (Ok pipe, s1) ->
  translate_text w text src tgt s =
  (match pipe_call w (clock s1) pipe text with
   | Ok [] => Raise (IndexError "list index out of range")
   | Ok (first :: _) =>
       match first !! "translation_text" with
       | Some translated => Ok translated
       | None => Raise (KeyError "'translation_text'")
       end
   | Raise e => Raise e
   end,
   {| _translation_pipelines := _translation_pipelines s1;
      next_id := next_id s1;
      clock := S (clock s1);
      trace := trace s1 ++ [CallPipe pipe text] |}).
Proof.
  intros H. unfold translate_text. unfold mbind at 1. unfold M_bind at 1.
  change (emit (CallTranslateText text src tgt) s)
    with (Ok tt, entered text src tgt s).
  cbv iota beta. erewrite bind_ok by exact H.
  unfold call_pipe, mbind, M_bind, lift_result. simpl.
  destruct (pipe_call w (clock s1) pipe text) as [[| first rest] | e]; try reflexivity.
  now destruct (first !! "translation_text").
Qed.

(** What a returned translation tells about the call. *)
Lemma translate_text_ok_inv text src tgt s out s' :
  translate_text w text src tgt s = (Ok out, s') ->
  exists pipe s1 first rest,
    _get_pipeline w (py_str src +:+ "->" +:+ py_str tgt) (entered text src tgt s)
      = (Ok pipe, s1)
    /\ pipe_call w (clock s1) pipe text = Ok (first :: rest)
    /\ first !! "translation_text" = Some out.
Proof.
  intros H.
  destruct (_get_pipeline w (py_str src +:+ "->" +:+ py_str tgt) (entered text src tgt s))
    as [[pipe | e] s1] eqn:Hp.
  2: { now rewrite (translate_text_unresolved _ _ _ _ _ _ Hp) in H. }
  rewrite (translate_text_resolved _ _ _ _ _ _ Hp) in H.
  exists pipe, s1.
  destruct (pipe_call w (clock s1) pipe text) as [[| first rest] | e];
    try discriminate.
  exists first, rest. split; [reflexivity |]. split; [reflexivity |].
  destruct (first !! "translation_text"); [congruence | discriminate].
Qed.

Lemma entered_cache_inv text src tgt s : cache_inv s -> cache_inv (entered text src tgt s).
Proof. now apply (keeps_inv_emit (CallTranslateText text src tgt)). Qed.

End TranslateText.

(** ** Failures at the unary endpoint *)




(** ** The key of a pair *)

Lemma key_has_hyphen a b : has_char "-"%char (a +:+ "->" +:+ b) = true.
Proof.
  induction a as [| c a IH]; simpl; [reflexivity |].
  rewrite IH. apply orb_true_r.
Qed.

(** The key [f"{src}->{tgt}"] tells the pair apart from every pair of codes
    that have no hyphen. *)
Lemma key_split a b a' b' :
  has_char "-"%char a' = false -> has_char "-"%char b' = false ->
  a +:+ "->" +:+ b = a' +:+ "->" +:+ b' ->
  a = a' /\ b = b'.
Proof.
  revert a. induction a' as [| c' a' IH]; intros a Ha Hb H.
  - destruct a as [| c a]; simpl in H.
    + injection H as H. now subst.
    + injection H as Hc H. destruct a as [| c2 a]; simpl in H; [discriminate |].
      injection H as Hc2 H. change ("" +:+ b') with b' in H.
      rewrite <- H, key_has_hyphen in Hb.
      discriminate.
  - simpl in Ha. apply orb_false_elim in Ha as [Hc Ha].
    destruct a as [| c a]; simpl in H.
    + injection H as Hc' _. subst c'. discriminate.
    + injection H as Hc' H. destruct (IH a Ha Hb H) as [Ea Eb]. now subst.
Qed.

Lemma LANGUAGE_MODELS_pairs a b :
  is_Some (LANGUAGE_MODELS !! (a +:+ "->" +:+ b)) ->
  (a, b) = ("en", "hi") \/ (a, b) = ("hi", "en")
  \/ (a, b) = ("en", "ja") \/ (a, b) = ("ja", "en").
Proof.
  unfold LANGUAGE_MODELS. intros [m H].
  rewrite lookup_insert in H. case_decide as E.
  { destruct (key_split a b "en" "hi" eq_refl eq_refl (eq_sym E)) as [-> ->]. auto. }
  rewrite lookup_insert in H. case_decide as E1.
  { destruct (key_split a b "hi" "en" eq_refl eq_refl (eq_sym E1)) as [-> ->]. auto. }
  rewrite lookup_insert in H. case_decide as E2.
  { destruct (key_split a b "en" "ja" eq_refl eq_refl (eq_sym E2)) as [-> ->]. auto. }
  rewrite lookup_insert in H. case_decide as E3.
  { destruct (key_split a b "ja" "en" eq_refl eq_refl (eq_sym E3)) as [-> ->]. auto 6. }
  now rewrite lookup_empty in H.
Qed.

(** ** Further properties of the translation functions *)

(** X1. In every state the process can reach, [translate_text] for a pair
    with no configured model raises the [ValueError] that names the pair
    straight away: no pipe is built, no model is called, the cache and the
    clock are as before. *)
Theorem translate_text_unconfigured_pair
    (w : World) (text src tgt : pyval) (s : State) :
  reachable w s ->
  LANGUAGE_MODELS !! (py_str src +:+ "->" +:+ py_str tgt) = None ->
  translate_text w text src tgt s =
  (Raise (ValueError ("No translation model configured for "
                      +:+ py_str src +:+ "->" +:+ py_str tgt)),
   {| _translation_pipelines := _translation_pipelines s;
      next_id := next_id s;
      clock := clock s;
      trace := trace s ++ [CallTranslateText text src tgt] |}).
Proof.
  intros Hs Hk. apply translate_text_unresolved.
  apply get_pipeline_unconfigured; [| exact Hk].
  exact (reachable_unconfigured_absent w s _ Hs Hk).
Qed.

Lemma translate_text_unconfigured_pair_witness :
  reachable demo_world initial
  /\ LANGUAGE_MODELS !! "fr->en" = None
  /\ translate_text demo_world (PyStr "Bonjour") (PyStr "fr") (PyStr "en") initial =
     (Raise (ValueError "No translation model configured for fr->en"),
      {| _translation_pipelines := ∅; next_id := 0; clock := 0;
         trace := [CallTranslateText (PyStr "Bonjour") (PyStr "fr") (PyStr "en")] |}).
Proof.
  assert (Hk : LANGUAGE_MODELS !! "fr->en" = None) by (vm_compute; reflexivity).
  split; [apply reachable_initial | split; [exact Hk |]].
  exact (translate_text_unconfigured_pair demo_world (PyStr "Bonjour") (PyStr "fr")
           (PyStr "en") initial (reachable_initial demo_world) Hk).
Defined.

(** X2. In every state the process can reach, a translation is returned only
    for the four configured directions: when [translate_text] returns, or the
    endpoint answers with [{translated}], source and target are [en] and [hi],
    [hi] and [en], [en] and [ja] or [ja] and [en]. In particular a request
    with the same language on both sides is never answered with a
    translation. *)
Theorem translation_only_for_configured_pairs (w : World) (s : State) :
  reachable w s ->
  (forall text src tgt out,
     fst (translate_text w text src tgt s) = Ok out ->
     (py_str src, py_str tgt) = ("en", "hi") \/ (py_str src, py_str tgt) = ("hi", "en")
     \/ (py_str src, py_str tgt) = ("en", "ja") \/ (py_str src, py_str tgt) = ("ja", "en"))
  /\ (forall msg target out,
        fst (translate_api w msg target s) = Translated out ->
        (source_language msg, target) = ("en", "hi")
        \/ (source_language msg, target) = ("hi", "en")
        \/ (source_language msg, target) = ("en", "ja")
        \/ (source_language msg, target) = ("ja", "en")).
Proof.
  intros Hs.
  assert (Ht : forall text src tgt out,
     fst (translate_text w text src tgt s) = Ok out ->
     is_Some (LANGUAGE_MODELS !! (py_str src +:+ "->" +:+ py_str tgt))).
  { intros text src tgt out H.
    destruct (translate_text w text src tgt s) as [r s'] eqn:E. simpl in H. subst r.
    destruct (translate_text_ok_inv w _ _ _ _ _ _ E) as (pipe & s1 & _ & _ & Hp & _).
    pose proof (get_pipeline_returns w _ _ _ _ Hp) as Hc.
    assert (Hi : cache_inv s1).
    { replace s1 with
        (snd (_get_pipeline w (py_str src +:+ "->" +:+ py_str tgt) (entered text src tgt s)))
        by now rewrite Hp.
      apply keeps_inv_get_pipeline, entered_cache_inv, (reachable_cache_inv w s Hs). }
    rewrite (inv_configured s1 Hi _ _ Hc). eauto. }
  split.
  - intros text src tgt out H. apply LANGUAGE_MODELS_pairs. eauto.
  - intros msg target out H. rewrite translate_api_unfold in H. simpl in H.
    apply (LANGUAGE_MODELS_pairs (source_language msg) target).
    destruct (fst (translate_text w (PyStr (text msg)) (PyStr (source_language msg))
                     (PyStr target) s)) as [out' | e] eqn:E;
      [| now destruct (is_Exception e)].
    exact (Ht _ (PyStr (source_language msg)) (PyStr target) _ E).
Qed.

Lemma translation_only_for_configured_pairs_witness :
  let msg := {| text := "Hello"; source_language := "en" |} in
  reachable demo_world initial
  /\ fst (translate_api demo_world msg "ja" initial) =
     Translated "Helsinki-NLP/opus-mt-en-jap: Hello"
  /\ ((source_language msg, "ja") = ("en", "hi")
      \/ (source_language msg, "ja") = ("hi", "en")
      \/ (source_language msg, "ja") = ("en", "ja")
      \/ (source_language msg, "ja") = ("ja", "en")).
Proof.
  intros msg.
  assert (H : fst (translate_api demo_world msg "ja" initial) =
              Translated "Helsinki-NLP/opus-mt-en-jap: Hello") by (vm_compute; reflexivity).
  split; [apply reachable_initial | split; [exact H |]].
  exact (proj2 (translation_only_for_configured_pairs demo_world initial
                  (reachable_initial demo_world)) msg "ja" _ H).
Defined.

(** X3. In every state the process can reach, a returned translation is the
    [translation_text] of the first candidate answered by a pipe that was
    built for the model configured for this very pair, and that pipe is the
    one cached under the pair afterwards. *)
Theorem translation_uses_configured_model
    (w : World) (text src tgt : pyval) (s s' : State) (out : string) :
  reachable w s ->
  translate_text w text src tgt s = (Ok out, s') ->
  exists pipe t first rest,
    LANGUAGE_MODELS !! (py_str src +:+ "->" +:+ py_str tgt) = Some (pipe_model pipe)
    /\ _translation_pipelines s' !! (py_str src +:+ "->" +:+ py_str tgt) = Some pipe
    /\ clock s' = S t
    /\ pipe_call w t pipe text = Ok (first :: rest)
    /\ first !! "translation_text" = Some out.
Proof.
  intros Hs E.
  destruct (translate_text_ok_inv w _ _ _ _ _ _ E) as (pipe & s1 & first & rest & Hp & Hc & Hf).
  pose proof (get_pipeline_returns w _ _ _ _ Hp) as Hk.
  assert (Hi : cache_inv s1).
  { replace s1 with
      (snd (_get_pipeline w (py_str src +:+ "->" +:+ py_str tgt) (entered text src tgt s)))
      by now rewrite Hp.
    apply keeps_inv_get_pipeline, entered_cache_inv, (reachable_cache_inv w s Hs). }
  rewrite (translate_text_resolved w _ _ _ _ _ _ Hp) in E.
  injection E as _ <-. simpl.
  exists pipe, (clock s1), first, rest.
  split; [exact (inv_configured s1 Hi _ _ Hk) |]. auto.
Qed.

Lemma translation_uses_configured_model_witness :
  let run := translate_text demo_world (PyStr "Hello") (PyStr "en") (PyStr "hi") initial in
  reachable demo_world initial
  /\ run = (Ok "Helsinki-NLP/opus-mt-en-hi: Hello", snd run)
  /\ exists pipe t first rest,
       LANGUAGE_MODELS !! "en->hi" = Some (pipe_model pipe)
       /\ _translation_pipelines (snd run) !! "en->hi" = Some pipe
       /\ clock (snd run) = S t
       /\ pipe_call demo_world t pipe (PyStr "Hello") = Ok (first :: rest)
       /\ first !! "translation_text" = Some "Helsinki-NLP/opus-mt-en-hi: Hello".
Proof.
  intros run.
  assert (E : run = (Ok "Helsinki-NLP/opus-mt-en-hi: Hello", snd run))
    by (vm_compute; reflexivity).
  split; [apply reachable_initial | split; [exact E |]].
  exact (translation_uses_configured_model demo_world (PyStr "Hello") (PyStr "en")
           (PyStr "hi") initial (snd run) _ (reachable_initial demo_world) E).
Defined.

(** X4. The pipe is cached before it is called: when the pair is configured,
    not yet cached, and the construction succeeds, the new pipe is cached
    under the pair after [translate_text], whether the model then answers,
    raises or answers with something unusable. *)
Theorem pipe_cached_before_model_runs
    (w : World) (text src tgt : pyval) (model_id : string) (s : State) :
  let key := py_str src +:+ "->" +:+ py_str tgt in
  LANGUAGE_MODELS !! key = Some model_id ->
  _translation_pipelines s !! key = None ->
  hf_pipeline w (clock s) model_id = None ->
  _translation_pipelines (snd (translate_text w text src tgt s)) !! key =
  Some {| pipe_id := next_id s; pipe_model := model_id |}.
Proof.
  intros key Hm Hc Hb.
  pose proof (get_pipeline_built w key model_id (entered text src tgt s) Hc Hm Hb) as Hp.
  cbv zeta in Hp. rewrite (translate_text_resolved w _ _ _ _ _ _ Hp). simpl.
  apply lookup_insert_eq.
Qed.

Lemma pipe_cached_before_model_runs_witness :
  let run :=
    translate_text failing_model_world (PyStr "Hi") (PyStr "en") (PyStr "hi") initial in
  LANGUAGE_MODELS !! "en->hi" = Some "Helsinki-NLP/opus-mt-en-hi"
  /\ _translation_pipelines initial !! "en->hi" = None
  /\ hf_pipeline failing_model_world (clock initial) "Helsinki-NLP/opus-mt-en-hi" = None
  /\ fst run = Raise (RuntimeError "CUDA out of memory")
  /\ _translation_pipelines (snd run) !! "en->hi" =
     Some {| pipe_id := 0; pipe_model := "Helsinki-NLP/opus-mt-en-hi" |}.
Proof.
  intros run.
  assert (Hm : LANGUAGE_MODELS !! "en->hi" = Some "Helsinki-NLP/opus-mt-en-hi")
    by (vm_compute; reflexivity).
  assert (Hc : _translation_pipelines initial !! "en->hi" = None)
    by (vm_compute; reflexivity).
  split; [exact Hm | split; [exact Hc | split; [reflexivity |]]].
  split; [vm_compute; reflexivity |].
  exact (pipe_cached_before_model_runs failing_model_world (PyStr "Hi") (PyStr "en")
           (PyStr "hi") _ initial Hm Hc eq_refl).
Defined.

(** X5. With the pipe of the pair cached, [translate_text] makes one library
    call, the call of that pipe, and builds and stores nothing. It returns the
    [translation_text] of the first candidate, whatever candidates follow; it
    raises [IndexError] when the answer is empty and [KeyError] when the first
    candidate has no [translation_text]. *)
Theorem translate_text_with_cached_pipe
    (w : World) (text src tgt : pyval) (pipe : Pipe) (s : State) :
  _translation_pipelines s !! (py_str src +:+ "->" +:+ py_str tgt) = Some pipe ->
  let run := translate_text w text src tgt s in
  snd run =
    {| _translation_pipelines := _translation_pipelines s;
       next_id := next_id s;
       clock := S (clock s);
       trace := trace s ++ [CallTranslateText text src tgt; CallPipe pipe text] |}
  /\ (pipe_call w (clock s) pipe text = Ok [] ->
      fst run = Raise (IndexError "list index out of range"))
  /\ (forall first rest,
        pipe_call w (clock s) pipe text = Ok (first :: rest) ->
        first !! "translation_text" = None ->
        fst run = Raise (KeyError "'translation_text'"))
  /\ (forall first rest translated,
        pipe_call w (clock s) pipe text = Ok (first :: rest) ->
        first !! "translation_text" = Some translated ->
        fst run = Ok translated).
Proof.
  intros Hc run. subst run.
  pose proof (get_pipeline_cached w _ pipe (entered text src tgt s) Hc) as Hp.
  rewrite (translate_text_resolved w _ _ _ _ _ _ Hp). simpl.
  split; [now rewrite <- app_assoc |].
  split; [now intros -> |].
  split; intros first rest; [intros -> -> | intros translated -> ->]; reflexivity.
Qed.

Lemma translate_text_with_cached_pipe_witness :
  let pipe := {| pipe_id := 0; pipe_model := "Helsinki-NLP/opus-mt-en-hi" |} in
  let s := snd (_get_pipeline empty_answer_world "en->hi" initial) in
  let run := translate_text empty_answer_world (PyStr "Hi") (PyStr "en") (PyStr "hi") s in
  _translation_pipelines s !! "en->hi" = Some pipe
  /\ pipe_call empty_answer_world (clock s) pipe (PyStr "Hi") = Ok []
  /\ fst run = Raise (IndexError "list index out of range")
  /\ clock (snd run) = S (clock s).
Proof.
  intros pipe s run.
  assert (Hc : _translation_pipelines s !! "en->hi" = Some pipe)
    by (vm_compute; reflexivity).
  split; [exact Hc | split; [reflexivity |]].
  destruct (translate_text_with_cached_pipe empty_answer_world (PyStr "Hi") (PyStr "en")
              (PyStr "hi") pipe s Hc) as (Hs & He & _).
  split; [exact (He eq_refl) | exact (f_equal clock Hs)].
Defined.

(** X6. A failed construction is not remembered: when the constructor raises
    [e], [_get_pipeline] raises [e] and the pair stays out of the cache, so
    the next call asks the constructor again and, when it succeeds then,
    returns the first pipe built for the pair. *)
Theorem failed_construction_not_cached
    (w : World) (key model_id : string) (e : exn) (s : State) :
  LANGUAGE_MODELS !! key = Some model_id ->
  _translation_pipelines s !! key = None ->
  hf_pipeline w (clock s) model_id = Some e ->
  let first_call := _get_pipeline w key s in
  fst first_call = Raise e
  /\ _translation_pipelines (snd first_call) = _translation_pipelines s
  /\ next_id (snd first_call) = next_id s
  /\ clock (snd first_call) = S (clock s)
  /\ (hf_pipeline w (S (clock s)) model_id = None ->
      fst (_get_pipeline w key (snd first_call)) =
      Ok {| pipe_id := next_id s; pipe_model := model_id |}).
Proof.
  intros Hm Hc Hb first_call. subst first_call.
  rewrite (get_pipeline_not_built w key model_id e s Hc Hm Hb). simpl.
  repeat (split; [reflexivity |]).
  intros Hb'.
  now rewrite (get_pipeline_built w key model_id
                 {| _translation_pipelines := _translation_pipelines s;
                    next_id := next_id s;
                    clock := S (clock s);
                    trace := trace s ++ [CallPipeline model_id] |} Hc Hm Hb').
Qed.

Lemma failed_construction_not_cached_witness :
  let first_call := _get_pipeline flaky_world "en->hi" initial in
  LANGUAGE_MODELS !! "en->hi" = Some "Helsinki-NLP/opus-mt-en-hi"
  /\ _translation_pipelines initial !! "en->hi" = None
  /\ hf_pipeline flaky_world (clock initial) "Helsinki-NLP/opus-mt-en-hi" =
     Some (Exn "OSError" "model download failed")
  /\ fst first_call = Raise (Exn "OSError" "model download failed")
  /\ fst (_get_pipeline flaky_world "en->hi" (snd first_call)) =
     Ok {| pipe_id := 0; pipe_model := "Helsinki-NLP/opus-mt-en-hi" |}.
Proof.
  intros first_call.
  assert (Hm : LANGUAGE_MODELS !! "en->hi" = Some "Helsinki-NLP/opus-mt-en-hi")
    by (vm_compute; reflexivity).
  assert (Hc : _translation_pipelines initial !! "en->hi" = None)
    by (vm_compute; reflexivity).
  split; [exact Hm | split; [exact Hc | split; [reflexivity |]]].
  destruct (failed_construction_not_cached flaky_world "en->hi" _ _ initial Hm Hc eq_refl)
    as (H1 & _ & _ & _ & H2).
  split; [exact H1 | exact (H2 eq_refl)].
Defined.

(** ** The pipes that are built *)

Lemma ids_inv_initial : ids_inv initial.
Proof.
  split; simpl.
  - now rewrite map_size_empty.
  - intros k p H. now rewrite lookup_empty in H.
  - intros k1 k2 p1 p2 H. now rewrite lookup_empty in H.
Qed.

Lemma ids_inv_same s s' :
  _translation_pipelines s' = _translation_pipelines s ->
  next_id s' = next_id s ->
  keeps_ids s s'.
Proof.
  intros Hc Hn [H1 H2 H3]. split; rewrite ?Hc, ?Hn; auto.
Qed.

Lemma keeps_ids_refl s : keeps_ids s s.
Proof. now intros H. Qed.

Lemma keeps_ids_trans s1 s2 s3 : keeps_ids s1 s2 -> keeps_ids s2 s3 -> keeps_ids s1 s3.
Proof. unfold keeps_ids. auto. Qed.

Lemma keeps_ids_emit ev : is_store ev = false -> respects keeps_ids (emit ev).
Proof. intros _ s. now apply ids_inv_same. Qed.

Lemma keeps_ids_tick : respects keeps_ids tick.
Proof. intros s. now apply ids_inv_same. Qed.

Lemma keeps_ids_get_pipeline w key : respects keeps_ids (_get_pipeline w key).
Proof.
  intros s.
  destruct (_translation_pipelines s !! key) as [p |] eqn:Hc.
  { rewrite (get_pipeline_cached _ _ _ _ Hc). apply keeps_ids_refl. }
  destruct (LANGUAGE_MODELS !! key) as [m |] eqn:Hm.
  2: { rewrite (get_pipeline_unconfigured _ _ _ Hc Hm). apply keeps_ids_refl. }
  destruct (hf_pipeline w (clock s) m) as [e |] eqn:Hb.
  { rewrite (get_pipeline_not_built _ _ _ _ _ Hc Hm Hb). now apply ids_inv_same. }
  rewrite (get_pipeline_built _ _ _ _ Hc Hm Hb). simpl.
  intros [H1 H2 H3]. split; simpl.
  - rewrite map_size_insert_None by exact Hc. now rewrite H1.
  - intros k p. rewrite lookup_insert. case_decide as Hk.
    + intros [= <-]. simpl. lia.
    + intros Hp. apply H2 in Hp. lia.
  - intros k1 k2 p1 p2. rewrite !lookup_insert.
    case_decide as Hk1; case_decide as Hk2; subst; try congruence.
    + intros [= <-] Hp E. apply H2 in Hp. simpl in E. lia.
    + intros Hp [= <-] E. apply H2 in Hp. simpl in E. lia.
    + apply H3.
Qed.

Lemma reachable_ids_inv w s : reachable w s -> ids_inv s.
Proof.
  induction 1 as [| r s _ IH]; [apply ids_inv_initial |].
  revert IH.
  apply (respects_serve w keeps_ids keeps_ids_refl keeps_ids_trans
           keeps_ids_emit keeps_ids_tick (keeps_ids_get_pipeline w)).
Qed.

Lemma cache_inv_size s : cache_inv s -> size (_translation_pipelines s) <= 4.
Proof.
  intros [H _].
  change 4 with (size LANGUAGE_MODELS).
  rewrite <- !size_dom. apply subseteq_size.
  intros k Hk. apply elem_of_dom in Hk as [p Hp]. apply elem_of_dom.
  rewrite (H k p Hp). eauto.
Qed.

(** X7. In every state the process can reach, the pipes built so far are
    exactly the cached ones: their number is the size of the cache, which is
    at most four, and pipes cached under different pairs are different
    objects. So no pipe is built and dropped, and no more than four models
    are ever loaded. *)
Theorem built_pipes_are_cached (w : World) (s : State) :
  reachable w s ->
  next_id s = size (_translation_pipelines s)
  /\ size (_translation_pipelines s) <= 4
  /\ (forall k1 k2 p1 p2,
        _translation_pipelines s !! k1 = Some p1 ->
        _translation_pipelines s !! k2 = Some p2 ->
        k1 <> k2 -> pipe_id p1 <> pipe_id p2).
Proof.
  intros Hs. destruct (reachable_ids_inv w s Hs) as [H1 _ H3].
  split; [exact H1 |]. split; [exact (cache_inv_size s (reachable_cache_inv w s Hs)) |].
  intros k1 k2 p1 p2 Hp1 Hp2 Hk E. apply Hk. exact (H3 k1 k2 p1 p2 Hp1 Hp2 E).
Qed.

Lemma built_pipes_are_cached_witness :
  let hindi : gmap string pyval :=
    {[ "text" := PyStr "Namaste"; "source_language" := PyStr "hi";
       "bot_language" := PyStr "source" ]} in
  let s := serve_all demo_world [ReqChat [hindi; hindi]; ReqResolve "fr->en"] initial in
  reachable demo_world s
  /\ next_id s = 2
  /\ size (_translation_pipelines s) = 2.
Proof.
  intros hindi s.
  assert (Hs : reachable demo_world s)
    by (apply reachable_serve; apply reachable_serve; apply reachable_initial).
  split; [exact Hs |].
  destruct (built_pipes_are_cached demo_world s Hs) as (H & _ & _).
  split; [vm_compute; reflexivity |].
  rewrite <- H. vm_compute; reflexivity.
Defined.

(** ** The completion and its credentials *)

(** X8. Without a usable [OPENAI_API_KEY] in the environment (not set, or
    empty), a completion call that passes no key raises
    [RuntimeError("OpenAI API key is not set.")] before any library is
    called, and so no chat turn returns a response. *)
Theorem no_api_key_no_reply (w : World) :
  environ w !! "OPENAI_API_KEY" = None \/ environ w !! "OPENAI_API_KEY" = Some "" ->
  (forall user_text system s,
     generate_reply w user_text system None s =
     (Raise (RuntimeError "OpenAI API key is not set."),
      {| _translation_pipelines := _translation_pipelines s;
         next_id := next_id s;
         clock := clock s;
         trace := trace s ++ [CallGenerateReply user_text] |}))
  /\ (forall payload s, is_ok (fst (chat_turn w payload s)) = false).
Proof.
  intros Hk.
  assert (Hg : forall user_text system s,
     generate_reply w user_text system None s =
     (Raise (RuntimeError "OpenAI API key is not set."),
      {| _translation_pipelines := _translation_pipelines s;
         next_id := next_id s;
         clock := clock s;
         trace := trace s ++ [CallGenerateReply user_text] |})).
  { intros user_text system s.
    unfold generate_reply, get_llm, OPENAI_API_KEY_ENV, mbind, M_bind. simpl.
    now destruct Hk as [-> | ->]. }
  split; [exact Hg |].
  intros payload s. unfold chat_turn, mbind, M_bind.
  destruct (user_en_of w _ _ s) as [[user_en | e] s1]; [| reflexivity].
  now rewrite Hg.
Qed.

Lemma no_api_key_no_reply_witness :
  let payload : gmap string pyval := {[ "text" := PyStr "Hello" ]} in
  (environ no_key_world !! "OPENAI_API_KEY" = None
   \/ environ no_key_world !! "OPENAI_API_KEY" = Some "")
  /\ chat_turn no_key_world payload initial =
     (Raise (RuntimeError "OpenAI API key is not set."),
      {| _translation_pipelines := ∅; next_id := 0; clock := 0;
         trace := [CallGenerateReply (PyStr "Hello")] |})
  /\ is_ok (fst (chat_turn no_key_world payload initial)) = false.
Proof.
  intros payload.
  assert (Hk : environ no_key_world !! "OPENAI_API_KEY" = None
               \/ environ no_key_world !! "OPENAI_API_KEY" = Some "")
    by (left; vm_compute; reflexivity).
  split; [exact Hk |]. split; [vm_compute; reflexivity |].
  exact (proj2 (no_api_key_no_reply no_key_world Hk) payload initial).
Defined.

(** ** The calls of a chat turn *)

Lemma count_app f tr tr' : count f (tr ++ tr') = count f tr + count f tr'.
Proof. unfold count. now rewrite List.filter_app, length_app. Qed.

Lemma translation_step_refl s : translation_step s s.
Proof.
  exists []. rewrite app_nil_r. repeat split; unfold count; simpl; lia.
Qed.

Section TurnCost.

Variable w : World.

Lemma translate_text_step text src tgt s :
  translation_step s (snd (translate_text w text src tgt s)).
Proof.
  set (key := py_str src +:+ "->" +:+ py_str tgt).
  destruct (_translation_pipelines (entered text src tgt s) !! key) as [p |] eqn:Hc.
  { pose proof (get_pipeline_cached w key p _ Hc) as Hp.
    rewrite (translate_text_resolved w _ _ _ _ _ _ Hp). simpl.
    exists [CallTranslateText text src tgt; CallPipe p text].
    rewrite <- app_assoc. repeat split; unfold count; simpl; lia. }
  destruct (LANGUAGE_MODELS !! key) as [m |] eqn:Hm.
  2: { pose proof (get_pipeline_unconfigured w key _ Hc Hm) as Hp.
       rewrite (translate_text_unresolved w _ _ _ _ _ _ Hp). simpl.
       exists [CallTranslateText text src tgt]. repeat split; unfold count; simpl; lia. }
  destruct (hf_pipeline w (clock (entered text src tgt s)) m) as [e |] eqn:Hb.
  { pose proof (get_pipeline_not_built w key m e _ Hc Hm Hb) as Hp.
    rewrite (translate_text_unresolved w _ _ _ _ _ _ Hp). simpl.
    exists [CallTranslateText text src tgt; CallPipeline m].
    rewrite <- app_assoc. repeat split; unfold count; simpl; lia. }
  pose proof (get_pipeline_built w key m _ Hc Hm Hb) as Hp. cbv zeta in Hp.
  rewrite (translate_text_resolved w _ _ _ _ _ _ Hp). simpl.
  exists [CallTranslateText text src tgt; CallPipeline m;
          CacheStore key {| pipe_id := next_id s; pipe_model := m |};
          CallPipe {| pipe_id := next_id s; pipe_model := m |} text].
  rewrite <- !app_assoc. repeat split; unfold count; simpl; lia.
Qed.

Lemma user_en_of_step text src s :
  translation_step s (snd (user_en_of w text src s)).
Proof.
  unfold user_en_of. destruct (negb (py_eq_str src "en")).
  - unfold mbind, M_bind.
    pose proof (translate_text_step text src (PyStr "en") s) as H.
    now destruct (translate_text w text src (PyStr "en") s) as [[t | e] s1].
  - apply translation_step_refl.
Qed.

Lemma bot_out_of_step bot_en out_lang s :
  translation_step s (snd (bot_out_of w bot_en out_lang s)).
Proof.
  unfold bot_out_of. destruct (negb (py_eq_str out_lang "en")).
  - apply translate_text_step.
  - apply translation_step_refl.
Qed.

Lemma generate_reply_clock user_text system api_key s :
  let s' := snd (generate_reply w user_text system api_key s) in
  clock s <= clock s' <= clock s + 4.
Proof. apply (generate_reply_state w user_text system api_key s). Qed.

(** The events and the library calls of one turn. *)
Lemma chat_turn_cost payload s :
  let turn := chat_turn w payload s in
  exists evs,
    trace (snd turn) = trace s ++ evs
    /\ count is_translate evs <= 2
    /\ count is_completion evs <= 1
    /\ (is_ok (fst turn) = true -> count is_completion evs = 1)
    /\ count is_send evs = 0
    /\ clock s <= clock (snd turn) <= clock s + 8.
Proof.
  unfold chat_turn, mbind, M_bind.
  set (text := dict_get payload "text" PyNone).
  set (src := dict_get payload "source_language" (PyStr "en")).
  set (tgt := dict_get payload "bot_language" (PyStr "en")).
  destruct (user_en_of_step text src s) as (e1 & T1 & A1 & B1 & C1 & D1).
  destruct (user_en_of w text src s) as [[user_en | e] s1]; simpl in *.
  2: { exists e1. repeat split; first [lia | exact T1 | discriminate]. }
  destruct (generate_reply_effect w user_en SYSTEM_PROMPT None s1) as [T2 _].
  pose proof (generate_reply_clock user_en SYSTEM_PROMPT None s1) as D2.
  destruct (generate_reply w user_en SYSTEM_PROMPT None s1) as [[bot_en | e] s2];
    simpl in *.
  2: { exists (e1 ++ [CallGenerateReply user_en]).
       rewrite !count_app, T2, T1, <- app_assoc. unfold count in *. simpl.
       repeat split; first [lia | discriminate]. }
  destruct (bot_out_of_step bot_en (out_lang_of src tgt) s2)
    as (e3 & T3 & A3 & B3 & C3 & D3).
  exists (e1 ++ [CallGenerateReply user_en] ++ e3).
  assert (T : trace (snd (match bot_out_of w bot_en (out_lang_of src tgt) s2 with
                          | (Ok a, s') =>
                              (Ok {| reply := a; reply_en := bot_en;
                                     detected_source := src |}, s')
                          | (Raise e, s') => (Raise e, s')
                          end)) = trace (snd (bot_out_of w bot_en (out_lang_of src tgt) s2))
              /\ clock (snd (match bot_out_of w bot_en (out_lang_of src tgt) s2 with
                          | (Ok a, s') =>
                              (Ok {| reply := a; reply_en := bot_en;
                                     detected_source := src |}, s')
                          | (Raise e, s') => (Raise e, s')
                          end)) = clock (snd (bot_out_of w bot_en (out_lang_of src tgt) s2))).
  { now destruct (bot_out_of w bot_en (out_lang_of src tgt) s2) as [[a | e] s3]. }
  destruct T as [Tt Tc]. unfold mret, M_ret. rewrite Tt, Tc.
  rewrite !count_app, T3, T2, T1, <- !app_assoc. unfold count in *. simpl.
  repeat split; lia.
Qed.

End TurnCost.

(** X9. Every chat turn, whatever the message and however it ends, makes at
    most two [translate_text] calls and at most one completion call, and
    sends nothing itself; a turn that returns a response has made exactly one
    completion call. It makes at most eight calls into the libraries: for
    each translation the construction of the pipe and its call, for the
    completion the client, the template, the chain and its run. *)
Theorem chat_turn_call_budget (w : World) (payload : gmap string pyval) (s : State) :
  let turn := chat_turn w payload s in
  exists evs,
    trace (snd turn) = trace s ++ evs
    /\ count is_translate evs <= 2
    /\ count is_completion evs <= 1
    /\ (is_ok (fst turn) = true -> count is_completion evs = 1)
    /\ count is_send evs = 0
    /\ clock s <= clock (snd turn) <= clock s + 8.
Proof. apply chat_turn_cost. Qed.

(** The bound is reached: a Hindi message answered in Hindi on a fresh
    process builds and calls two pipes and makes the four calls of the
    completion. *)
Example scenario_eight_library_calls :
  let payload : gmap string pyval :=
    {[ "text" := PyStr "Namaste"; "source_language" := PyStr "hi";
       "bot_language" := PyStr "source" ]} in
  clock (snd (chat_turn demo_world payload initial)) = 8.
Proof. vm_compute; reflexivity. Qed.

(** ** Where a chat turn fails *)

Section TurnFailures.

Variable w : World.

(** [translate_text] for a pair that is neither cached nor configured. *)
Lemma translate_text_absent text src tgt s :
  _translation_pipelines s !! (py_str src +:+ "->" +:+ py_str tgt) = None ->
  LANGUAGE_MODELS !! (py_str src +:+ "->" +:+ py_str tgt) = None ->
  translate_text w text src tgt s =
  (Raise (ValueError ("No translation model configured for "
                      +:+ py_str src +:+ "->" +:+ py_str tgt)),
   entered text src tgt s).
Proof.
  intros Hc Hk. apply translate_text_unresolved.
  now apply get_pipeline_unconfigured.
Qed.

(** The turn when the source is not English and its pair to English is
    neither cached nor configured. *)
Lemma chat_turn_source_absent payload s :
  let text := dict_get payload "text" PyNone in
  let src := dict_get payload "source_language" (PyStr "en") in
  py_eq_str src "en" = false ->
  _translation_pipelines s !! (py_str src +:+ "->" +:+ "en") = None ->
  LANGUAGE_MODELS !! (py_str src +:+ "->" +:+ "en") = None ->
  chat_turn w payload s =
  (Raise (ValueError ("No translation model configured for " +:+ py_str src +:+ "->" +:+ "en")),
   entered text src (PyStr "en") s).
Proof.
  intros text src Hs Hc Hk. unfold chat_turn. fold text src.
  unfold user_en_of. rewrite Hs. simpl negb. cbv iota.
  unfold mbind, M_bind.
  now rewrite (translate_text_absent text src (PyStr "en") s Hc Hk).
Qed.

End TurnFailures.

(** X10. A message in a language other than English whose pair to English
    has no configured model is refused before anything is spent on it: the
    turn raises the [ValueError] that names the pair, and no completion call
    and no library call is made. *)
Theorem unsupported_source_fails_before_completion
    (w : World) (payload : gmap string pyval) (s : State) :
  let text := dict_get payload "text" PyNone in
  let src := dict_get payload "source_language" (PyStr "en") in
  reachable w s ->
  py_eq_str src "en" = false ->
  LANGUAGE_MODELS !! (py_str src +:+ "->" +:+ "en") = None ->
  chat_turn w payload s =
  (Raise (ValueError ("No translation model configured for " +:+ py_str src +:+ "->" +:+ "en")),
   {| _translation_pipelines := _translation_pipelines s;
      next_id := next_id s;
      clock := clock s;
      trace := trace s ++ [CallTranslateText text src (PyStr "en")] |}).
Proof.
  intros text src Hs Hsrc Hk.
  apply (chat_turn_source_absent w payload s Hsrc); [| exact Hk].
  exact (reachable_unconfigured_absent w s _ Hs Hk).
Qed.

Lemma unsupported_source_fails_before_completion_witness :
  let payload : gmap string pyval :=
    {[ "text" := PyStr "Bonjour"; "source_language" := PyStr "fr" ]} in
  reachable demo_world initial
  /\ py_eq_str (dict_get payload "source_language" (PyStr "en")) "en" = false
  /\ LANGUAGE_MODELS !! "fr->en" = None
  /\ chat_turn demo_world payload initial =
     (Raise (ValueError "No translation model configured for fr->en"),
      {| _translation_pipelines := ∅; next_id := 0; clock := 0;
         trace := [CallTranslateText (PyStr "Bonjour") (PyStr "fr") (PyStr "en")] |}).
Proof.
  intros payload.
  assert (H1 : py_eq_str (dict_get payload "source_language" (PyStr "en")) "en" = false)
    by (vm_compute; reflexivity).
  assert (H2 : LANGUAGE_MODELS !! "fr->en" = None) by (vm_compute; reflexivity).
  split; [apply reachable_initial | split; [exact H1 | split; [exact H2 |]]].
  pose proof (unsupported_source_fails_before_completion demo_world payload initial
                (reachable_initial demo_world) H1) as H.
  exact (H H2).
Defined.

(** X11. An output language whose pair from English has no configured model
    is found out only after the completion: for a message in English the turn
    first makes the completion call and then, when that returned, raises the
    [ValueError] that names the pair, so the reply is lost. *)
Theorem unsupported_target_fails_after_completion
    (w : World) (payload : gmap string pyval) (s s1 : State) (bot_en : string) :
  let text := dict_get payload "text" PyNone in
  let src := dict_get payload "source_language" (PyStr "en") in
  let tgt := dict_get payload "bot_language" (PyStr "en") in
  let out_lang := out_lang_of src tgt in
  reachable w s ->
  py_eq_str src "en" = true ->
  py_eq_str out_lang "en" = false ->
  LANGUAGE_MODELS !! ("en" +:+ "->" +:+ py_str out_lang) = None ->
  generate_reply w text SYSTEM_PROMPT None s = (Ok bot_en, s1) ->
  fst (chat_turn w payload s) =
    Raise (ValueError ("No translation model configured for " +:+ "en->" +:+ py_str out_lang))
  /\ trace (snd (chat_turn w payload s)) =
     trace s ++ [CallGenerateReply text;
                 CallTranslateText (PyStr bot_en) (PyStr "en") out_lang].
Proof.
  intros text src tgt out_lang Hs Hsrc Hout Hk Hg.
  pose proof (chat_turn_english_in w payload s) as E. cbv zeta in E.
  fold text src tgt out_lang in E. rewrite (E Hsrc). clear E.
  unfold mbind, M_bind. rewrite Hg.
  destruct (generate_reply_effect w text SYSTEM_PROMPT None s) as [Ht Hc].
  rewrite Hg in Ht, Hc. simpl in Ht, Hc. unfold same_cache in Hc.
  unfold bot_out_of. rewrite Hout. change (negb false) with true. cbv iota.
  assert (Ha : _translation_pipelines s1 !! ("en" +:+ "->" +:+ py_str out_lang) = None).
  { rewrite Hc. exact (reachable_unconfigured_absent w s _ Hs Hk). }
  rewrite (translate_text_absent w (PyStr bot_en) (PyStr "en") out_lang s1 Ha Hk).
  simpl. split; [reflexivity |]. now rewrite Ht, <- app_assoc.
Qed.

Lemma unsupported_target_fails_after_completion_witness :
  let payload : gmap string pyval :=
    {[ "text" := PyStr "Hi"; "bot_language" := PyStr "fr" ]} in
  reachable demo_world initial
  /\ LANGUAGE_MODELS !! "en->fr" = None
  /\ fst (generate_reply demo_world (PyStr "Hi") SYSTEM_PROMPT None initial) = Ok "Echo Hi"
  /\ fst (chat_turn demo_world payload initial) =
     Raise (ValueError "No translation model configured for en->fr")
  /\ trace (snd (chat_turn demo_world payload initial)) =
     [CallGenerateReply (PyStr "Hi");
      CallTranslateText (PyStr "Echo Hi") (PyStr "en") (PyStr "fr")].
Proof.
  intros payload.
  assert (Hk : LANGUAGE_MODELS !! "en->fr" = None) by (vm_compute; reflexivity).
  split; [apply reachable_initial | split; [exact Hk |]].
  split; [vm_compute; reflexivity |].
  exact (unsupported_target_fails_after_completion demo_world payload initial
           (snd (generate_reply demo_world (PyStr "Hi") SYSTEM_PROMPT None initial))
           "Echo Hi" (reachable_initial demo_world) eq_refl eq_refl Hk eq_refl).
Defined.

(** X12. Only a missing [source_language] is read as English. A message that
    carries the field with JSON [null] is taken as written: the turn asks for
    the pair [None->en], which is not configured, and raises without making
    the completion call. *)
Theorem null_source_language_not_defaulted
    (w : World) (payload : gmap string pyval) (s : State) :
  reachable w s ->
  payload !! "source_language" = Some PyNone ->
  chat_turn w payload s =
  (Raise (ValueError "No translation model configured for None->en"),
   {| _translation_pipelines := _translation_pipelines s;
      next_id := next_id s;
      clock := clock s;
      trace := trace s ++
               [CallTranslateText (dict_get payload "text" PyNone) PyNone (PyStr "en")] |}).
Proof.
  intros Hs Hp.
  assert (Hk : LANGUAGE_MODELS !! "None->en" = None) by (vm_compute; reflexivity).
  pose proof (chat_turn_source_absent w payload s) as H. cbv zeta in H.
  rewrite (dict_get_some _ _ _ _ Hp) in H.
  apply (H eq_refl); [| exact Hk].
  exact (reachable_unconfigured_absent w s _ Hs Hk).
Qed.

Lemma null_source_language_not_defaulted_witness :
  let payload : gmap string pyval :=
    {[ "text" := PyStr "Hello"; "source_language" := PyNone ]} in
  reachable demo_world initial
  /\ payload !! "source_language" = Some PyNone
  /\ fst (chat_turn demo_world payload initial) =
     Raise (ValueError "No translation model configured for None->en").
Proof.
  intros payload.
  assert (Hp : payload !! "source_language" = Some PyNone) by (vm_compute; reflexivity).
  split; [apply reachable_initial | split; [exact Hp |]].
  exact (f_equal fst (null_source_language_not_defaulted demo_world payload initial
                        (reachable_initial demo_world) Hp)).
Defined.

(** ** The connection loop *)

Section Connection.

Variable w : World.

(** Frames that were all answered, followed by more frames. *)
Lemma websocket_chat_app_ok before rest s s1 :
  websocket_chat w before s = (Ok tt, s1) ->
  websocket_chat w (before ++ rest) s = websocket_chat w rest s1.
Proof.
  revert s. induction before as [| payload before IH]; intros s H; simpl in *.
  { now injection H as ->. }
  unfold mbind, M_bind in *.
  destruct (chat_turn w payload s) as [[r | e] s2]; [| discriminate].
  simpl in *. now apply IH.
Qed.

(** The events of a connection, frame by frame. *)
Lemma websocket_chat_cost frames s :
  let run := websocket_chat w frames s in
  exists evs,
    trace (snd run) = trace s ++ evs
    /\ count is_send evs <= length frames
    /\ count is_completion evs <= length frames
    /\ count is_translate evs <= 2 * length frames
    /\ (is_ok (fst run) = true ->
        count is_send evs = length frames
        /\ count is_completion evs = length frames).
Proof.
  revert s. induction frames as [| payload rest IH]; intros s; simpl.
  { exists []. rewrite app_nil_r. unfold count. simpl. repeat split; lia. }
  unfold mbind, M_bind.
  destruct (chat_turn_cost w payload s) as (e1 & T1 & A1 & B1 & B1' & C1 & _).
  destruct (chat_turn w payload s) as [[r | e] s1]; simpl in *.
  2: { exists e1. repeat split; first [exact T1 | lia | discriminate]. }
  specialize (B1' eq_refl).
  match goal with |- context [websocket_chat w rest ?s2] =>
    destruct (IH s2) as (e2 & T2 & A2 & B2 & C2 & D2)
  end.
  simpl in T2.
  exists (e1 ++ [SendText (reply r) (reply_en r) (detected_source r)] ++ e2).
  split; [now rewrite T2, T1, <- !app_assoc |].
  rewrite !count_app. unfold count in *. simpl.
  split; [lia |]. split; [lia |]. split; [lia |].
  intros Hok. specialize (D2 Hok). lia.
Qed.

End Connection.

(** X13. Over a connection the handler sends at most one reply per frame and
    makes at most one completion call and two [translate_text] calls per
    frame; when it gets through every frame it has sent exactly one reply and
    made exactly one completion call for each. *)
Theorem websocket_one_reply_per_frame
    (w : World) (frames : list (gmap string pyval)) (s : State) :
  let run := websocket_chat w frames s in
  exists evs,
    trace (snd run) = trace s ++ evs
    /\ count is_send evs <= length frames
    /\ count is_completion evs <= length frames
    /\ count is_translate evs <= 2 * length frames
    /\ (is_ok (fst run) = true ->
        count is_send evs = length frames
        /\ count is_completion evs = length frames).
Proof. apply websocket_chat_cost. Qed.

(** X14. A turn that raises ends the connection: when the frames before it
    were all answered and the turn of a frame raises an exception other than
    the disconnect, the handler raises that exception in the state the turn
    left, no reply is sent for the frame, and the frames after it are never
    processed. *)
Theorem websocket_stops_at_failed_turn
    (w : World) (before rest : list (gmap string pyval)) (payload : gmap string pyval)
    (s s1 s2 : State) (e : exn) :
  websocket_chat w before s = (Ok tt, s1) ->
  chat_turn w payload s1 = (Raise e, s2) ->
  exn_class e <> "WebSocketDisconnect" ->
  websocket_chat w (before ++ payload :: rest) s = (Raise e, s2)
  /\ exists evs,
       trace s2 = trace s ++ evs /\ count is_send evs = length before.
Proof.
  intros Hb Ht _. split.
  - rewrite (websocket_chat_app_ok w before (payload :: rest) s s1 Hb). simpl.
    unfold mbind, M_bind. now rewrite Ht.
  - destruct (websocket_chat_cost w before s) as (e1 & T1 & _ & _ & _ & D1).
    rewrite Hb in T1, D1. simpl in T1, D1. destruct (D1 eq_refl) as [D _].
    destruct (chat_turn_cost w payload s1) as (e2 & T2 & _ & _ & _ & C2 & _).
    rewrite Ht in T2. simpl in T2.
    exists (e1 ++ e2). rewrite T2, T1, count_app, <- app_assoc. split; [reflexivity | lia].
Qed.

Lemma websocket_stops_at_failed_turn_witness :
  let hello : gmap string pyval := {[ "text" := PyStr "Hello" ]} in
  let bonjour : gmap string pyval :=
    {[ "text" := PyStr "Bonjour"; "source_language" := PyStr "fr" ]} in
  let s1 := snd (websocket_chat demo_world [hello] initial) in
  let s2 := snd (chat_turn demo_world bonjour s1) in
  let e := ValueError "No translation model configured for fr->en" in
  websocket_chat demo_world [hello] initial = (Ok tt, s1)
  /\ chat_turn demo_world bonjour s1 = (Raise e, s2)
  /\ exn_class e <> "WebSocketDisconnect"
  /\ websocket_chat demo_world ([hello] ++ bonjour :: [hello; hello]) initial = (Raise e, s2)
  /\ count is_send (trace s2) = 1.
Proof.
  intros hello bonjour s1 s2 e.
  assert (Hb : websocket_chat demo_world [hello] initial = (Ok tt, s1))
    by (vm_compute; reflexivity).
  assert (Ht : chat_turn demo_world bonjour s1 = (Raise e, s2))
    by (vm_compute; reflexivity).
  assert (He : exn_class e <> "WebSocketDisconnect") by (vm_compute; discriminate).
  split; [exact Hb | split; [exact Ht | split; [exact He |]]].
  split; [| vm_compute; reflexivity].
  exact (proj1 (websocket_stops_at_failed_turn demo_world [hello] [hello; hello] bonjour
                  initial s1 s2 e Hb Ht He)).
Defined.

(** X15. The [detected_source] of a response is never detected: whenever a
    turn returns a response, the field is the [source_language] the message
    carried, whatever its type, or ["en"] when it carried none; and when the
    output language is ["en"] the reply is the English reply. *)
Theorem response_echoes_source_language
    (w : World) (payload : gmap string pyval) (s s' : State) (r : resp_obj) :
  let src := dict_get payload "source_language" (PyStr "en") in
  let tgt := dict_get payload "bot_language" (PyStr "en") in
  chat_turn w payload s = (Ok r, s') ->
  detected_source r = src
  /\ (py_eq_str (out_lang_of src tgt) "en" = true -> reply r = reply_en r).
Proof.
  intros src tgt H. unfold chat_turn in H. fold src tgt in H.
  unfold mbind, M_bind in H.
  destruct (user_en_of w _ src s) as [[user_en | e] s1]; [| discriminate].
  destruct (generate_reply w user_en SYSTEM_PROMPT None s1) as [[bot_en | e] s2];
    [| discriminate].
  destruct (bot_out_of w bot_en (out_lang_of src tgt) s2) as [[bot_out | e] s3] eqn:E;
    [| discriminate].
  injection H as <- _. simpl. split; [reflexivity |].
  intros Ho. rewrite (bot_out_of_english w bot_en _ s2 Ho) in E. congruence.
Qed.

Lemma response_echoes_source_language_witness :
  let payload : gmap string pyval :=
    {[ "text" := PyStr "Namaste"; "source_language" := PyStr "hi" ]} in
  let turn := chat_turn demo_world payload initial in
  turn =
    (Ok {| reply := "Echo Helsinki-NLP/opus-mt-hi-en: Namaste";
           reply_en := "Echo Helsinki-NLP/opus-mt-hi-en: Namaste";
           detected_source := PyStr "hi" |}, snd turn)
  /\ detected_source
       {| reply := "Echo Helsinki-NLP/opus-mt-hi-en: Namaste";
          reply_en := "Echo Helsinki-NLP/opus-mt-hi-en: Namaste";
          detected_source := PyStr "hi" |} =
     dict_get payload "source_language" (PyStr "en").
Proof.
  intros payload turn.
  assert (H : turn =
    (Ok {| reply := "Echo Helsinki-NLP/opus-mt-hi-en: Namaste";
           reply_en := "Echo Helsinki-NLP/opus-mt-hi-en: Namaste";
           detected_source := PyStr "hi" |}, snd turn)) by (vm_compute; reflexivity).
  split; [exact H |].
  exact (proj1 (response_echoes_source_language demo_world payload initial (snd turn) _ H)).
Defined.

(** ** Keys and warm caches *)

(** X16. For language codes that are strings, as the endpoint's validated
    body and query always are, the cache key [f"{src}->{tgt}"] tells pairs
    apart: when the key of a pair of strings is the key of a pair of strings
    without a hyphen, the two pairs are the same pair. So two pairs of
    ordinary codes never share a cache entry. *)
Theorem pair_key_tells_pairs_apart (src tgt src' tgt' : string) :
  has_char "-"%char src' = false ->
  has_char "-"%char tgt' = false ->
  py_str (PyStr src) +:+ "->" +:+ py_str (PyStr tgt) =
  py_str (PyStr src') +:+ "->" +:+ py_str (PyStr tgt') ->
  (PyStr src, PyStr tgt) = (PyStr src', PyStr tgt').
Proof.
  intros Hs Ht H. simpl in H.
  destruct (key_split src tgt src' tgt' Hs Ht H) as [-> ->]. reflexivity.
Qed.

Lemma pair_key_tells_pairs_apart_witness :
  has_char "-"%char "en" = false
  /\ has_char "-"%char "hi" = false
  /\ py_str (PyStr "en") +:+ "->" +:+ py_str (PyStr "hi") = "en->hi"
  /\ (PyStr "en", PyStr "hi") = (PyStr "en", PyStr "hi").
Proof.
  split; [reflexivity | split; [reflexivity | split; [reflexivity |]]].
  exact (pair_key_tells_pairs_apart "en" "hi" "en" "hi" eq_refl eq_refl eq_refl).
Defined.

(** A value that is not a string shares the key of its text: JSON [null]
    and the string ["None"] ask for the same pair. *)
Example null_shares_key_with_its_text :
  py_str PyNone +:+ "->" +:+ py_str (PyStr "en") =
  py_str (PyStr "None") +:+ "->" +:+ py_str (PyStr "en").
Proof. reflexivity. Qed.

Section WarmCache.

Variable w : World.

Lemma generate_reply_next_id user_text system api_key s :
  next_id (snd (generate_reply w user_text system api_key s)) = next_id s.
Proof. apply (generate_reply_state w user_text system api_key s). Qed.

(** [translate_text] with the pipe of the pair cached builds nothing. *)
Lemma translate_text_warm text src tgt s :
  is_Some (_translation_pipelines s !! (py_str src +:+ "->" +:+ py_str tgt)) ->
  let s' := snd (translate_text w text src tgt s) in
  _translation_pipelines s' = _translation_pipelines s /\ next_id s' = next_id s.
Proof.
  intros [pipe Hc].
  pose proof (get_pipeline_cached w _ pipe (entered text src tgt s) Hc) as Hp.
  now rewrite (translate_text_resolved w _ _ _ _ _ _ Hp).
Qed.

End WarmCache.

(** X17. A turn whose pairs are already cached builds nothing, whichever
    request cached them: when the pair from the source to English (for a
    source other than English) and the pair from English to the output
    language (for an output other than English) are in the cache, the turn
    leaves the cache as it is and constructs no pipe. *)
Theorem warm_turn_builds_nothing
    (w : World) (payload : gmap string pyval) (s : State) :
  let src := dict_get payload "source_language" (PyStr "en") in
  let tgt := dict_get payload "bot_language" (PyStr "en") in
  let out_lang := out_lang_of src tgt in
  (py_eq_str src "en" = true
   \/ is_Some (_translation_pipelines s !! (py_str src +:+ "->" +:+ "en"))) ->
  (py_eq_str out_lang "en" = true
   \/ is_Some (_translation_pipelines s !! ("en" +:+ "->" +:+ py_str out_lang))) ->
  let s' := snd (chat_turn w payload s) in
  _translation_pipelines s' = _translation_pipelines s /\ next_id s' = next_id s.
Proof.
  intros src tgt out_lang Hin Hout. unfold chat_turn. fold src tgt out_lang.
  unfold mbind, M_bind.
  assert (H1 : let s1 := snd (user_en_of w (dict_get payload "text" PyNone) src s) in
               _translation_pipelines s1 = _translation_pipelines s
               /\ next_id s1 = next_id s).
  { unfold user_en_of. destruct (py_eq_str src "en") eqn:E; simpl; [now split |].
    destruct Hin as [Hin | Hin]; [discriminate |].
    unfold mbind, M_bind.
    pose proof (translate_text_warm w (dict_get payload "text" PyNone) src (PyStr "en") s Hin)
      as H.
    now destruct (translate_text w _ src (PyStr "en") s) as [[t | e] s1]. }
  destruct (user_en_of w (dict_get payload "text" PyNone) src s) as [[user_en | e] s1];
    simpl in H1; [| exact H1].
  destruct H1 as [C1 N1].
  destruct (generate_reply_effect w user_en SYSTEM_PROMPT None s1) as [_ C2].
  pose proof (generate_reply_next_id w user_en SYSTEM_PROMPT None s1) as N2.
  unfold same_cache in C2.
  destruct (generate_reply w user_en SYSTEM_PROMPT None s1) as [[bot_en | e] s2];
    simpl in C2, N2; [| simpl; split; congruence].
  assert (H3 : let s3 := snd (bot_out_of w bot_en out_lang s2) in
               _translation_pipelines s3 = _translation_pipelines s2
               /\ next_id s3 = next_id s2).
  { unfold bot_out_of. destruct (py_eq_str out_lang "en") eqn:E; simpl; [now split |].
    destruct Hout as [Hout | Hout]; [discriminate |].
    apply translate_text_warm. simpl. now rewrite C2, C1. }
  destruct (bot_out_of w bot_en out_lang s2) as [[bot_out | e] s3];
    simpl in H3 |- *; destruct H3 as [C3 N3]; split; congruence.
Qed.

Lemma warm_turn_builds_nothing_witness :
  let hindi : gmap string pyval :=
    {[ "text" := PyStr "Namaste"; "source_language" := PyStr "hi";
       "bot_language" := PyStr "source" ]} in
  let s :=
    serve_all demo_world
      [ReqTranslateApi {| text := "Hello"; source_language := "en" |} "hi";
       ReqTranslateApi {| text := "Namaste"; source_language := "hi" |} "en"] initial in
  let s' := snd (chat_turn demo_world hindi s) in
  is_Some (_translation_pipelines s !! "hi->en")
  /\ is_Some (_translation_pipelines s !! "en->hi")
  /\ _translation_pipelines s' = _translation_pipelines s
  /\ next_id s' = 2.
Proof.
  intros hindi s s'.
  assert (Hin : is_Some (_translation_pipelines s !! "hi->en"))
    by (vm_compute; eauto).
  assert (Hout : is_Some (_translation_pipelines s !! "en->hi"))
    by (vm_compute; eauto).
  split; [exact Hin | split; [exact Hout |]].
  destruct (warm_turn_builds_nothing demo_world hindi s (or_intror Hin) (or_intror Hout))
    as [Hc Hn].
  split; [exact Hc | exact Hn].
Defined.
